(** * storeHelper: the store generator's naming rules, descriptor table,
      per-collection composer, index imports and generated auth flows.

    The development follows the JavaScript sources:
      - helper/helperF.js                         (toCamel, toCamelCase, capitalize, writeFile)
      - helper/generateCollectionActionModule.js  (actionDescriptors, generateCollectionActionModule)
      - helper/generateIndexFile.js               (actionImports and the generated auth flows)
      - index.js                                  (isAuthCollection, the collection list of the driver)

    JavaScript strings are modelled by [string]; the embedding is exact for
    strings whose code units are ASCII (below 128), which is all that the
    collection-name check of the composer lets through.  Case mapping leaves
    every other code unit unchanged. *)

From Stdlib Require Import Ascii String.
From stdpp Require Import gmap strings list.

Set Warnings "-register-all".

Local Open Scope string_scope.
Local Open Scope list_scope.
Local Open Scope nat_scope.

(** ** JavaScript string primitives used by the helpers *)

Module Js.

Definition code (c : ascii) : nat := nat_of_ascii c.

Definition isLower (c : ascii) : bool := (97 <=? code c) && (code c <=? 122).
Definition isUpper (c : ascii) : bool := (65 <=? code c) && (code c <=? 90).
Definition isDigit (c : ascii) : bool := (48 <=? code c) && (code c <=? 57).

(** [\s] restricted to ASCII: tab, line feed, vertical tab, form feed,
    carriage return and space. *)
Definition isSpace (c : ascii) : bool :=
  ((9 <=? code c) && (code c <=? 13)) || (code c =? 32).

Definition upperChar (c : ascii) : ascii :=
  if isLower c then ascii_of_nat (code c - 32) else c.

Definition lowerChar (c : ascii) : ascii :=
  if isUpper c then ascii_of_nat (code c + 32) else c.

Fixpoint mapChars (f : ascii -> ascii) (s : string) : string :=
  match s with
  | EmptyString => EmptyString
  | String c r => String (f c) (mapChars f r)
  end.

(** [str.toUpperCase()] and [str.toLowerCase()] *)
Definition toUpperCase : string -> string := mapChars upperChar.
Definition toLowerCase : string -> string := mapChars lowerChar.

(** [str.charAt(0)]: the first code unit as a string, the empty string when
    there is none. *)
Definition charAt0 (s : string) : string :=
  match s with
  | EmptyString => EmptyString
  | String c _ => String c EmptyString
  end.

(** [str.slice(1)] *)
Definition slice1 (s : string) : string :=
  match s with
  | EmptyString => EmptyString
  | String _ r => r
  end.

Fixpoint trimStart (s : string) : string :=
  match s with
  | EmptyString => EmptyString
  | String c r => if isSpace c then trimStart r else s
  end.

Fixpoint trimEnd (s : string) : string :=
  match s with
  | EmptyString => EmptyString
  | String c r =>
      match trimEnd r with
      | EmptyString => if isSpace c then EmptyString else String c EmptyString
      | r' => String c r'
      end
  end.

(** [str.trim()] *)
Definition trim (s : string) : string := trimEnd (trimStart s).

(** [str.split(re)] for a separator [re = [cls]+], a non-empty greedy run of
    characters of one class: every maximal run of separators ends a token, a
    leading or trailing run leaves an empty token, and the empty string
    splits into one empty token. *)
Fixpoint splitRuns (sep : ascii -> bool) (s : string) : list string :=
  match s with
  | EmptyString => [EmptyString]
  | String c r =>
      if sep c then
        match r with
        | String d _ => if sep d then splitRuns sep r else EmptyString :: splitRuns sep r
        | EmptyString => EmptyString :: splitRuns sep r
        end
      else
        match splitRuns sep r with
        | t :: ts => String c t :: ts
        | [] => [String c EmptyString]
        end
  end.

(** [arr.join('')] *)
Definition joinEmpty (l : list string) : string := String.concat EmptyString l.

(** [str.replace(/\n/g, by)] and the like: every occurrence of one character
    replaced by a string. *)
Fixpoint replaceChar (c : ascii) (by_ : string) (s : string) : string :=
  match s with
  | EmptyString => EmptyString
  | String d r =>
      if Ascii.eqb c d then by_ +:+ replaceChar c by_ r
      else String d (replaceChar c by_ r)
  end.

(** [str.includes(sub)] *)
Fixpoint includes (s sub : string) : bool :=
  String.prefix sub s ||
  match s with
  | EmptyString => false
  | String _ r => includes r sub
  end.

(** The number of positions of [s] at which [sub] starts. *)
Fixpoint occurrences (sub s : string) : nat :=
  (if String.prefix sub s then 1 else 0) +
  match s with
  | EmptyString => 0
  | String _ r => occurrences sub r
  end.

End Js.

(** ** helper/helperF.js *)

(** [[-\s_]] *)
Definition isWordSeparator (c : ascii) : bool :=
  Ascii.eqb c "-" || Js.isSpace c || Ascii.eqb c "_".

(** [toCamel]: [str.replace(/-([a-z])/g, (_, c) => c.toUpperCase())] *)
Fixpoint toCamel (str : string) : string :=
  match str with
  | EmptyString => EmptyString
  | String c r =>
      if Ascii.eqb c "-" then
        match r with
        | String d r' =>
            if Js.isLower d then String (Js.upperChar d) (toCamel r')
            else String c (toCamel r)
        | EmptyString => String c (toCamel r)
        end
      else String c (toCamel r)
  end.

(** [toCamelCase]: trim, lower-case, split on [/[-\s_]+/], upper-case the
    first character of every token but the first, join. *)
Definition toCamelCase (str : string) : string :=
  Js.joinEmpty
    (imap (fun i w => if Nat.eqb i 0 then w
                      else Js.toUpperCase (Js.charAt0 w) +:+ Js.slice1 w)
          (Js.splitRuns isWordSeparator (Js.toLowerCase (Js.trim str)))).

(** [capitalize]: [str.charAt(0).toUpperCase() + str.slice(1)] *)
Definition capitalize (str : string) : string :=
  Js.toUpperCase (Js.charAt0 str) +:+ Js.slice1 str.

(** ** State-and-exception computations

    The generator threads a file system through its calls and the generated
    store functions thread the store's refs; both throw.  [M S E A] is a
    computation over a state [S] that returns an [A] or throws an [E]. *)

Inductive Outcome (E A : Type) : Type :=
  | Returned (a : A)
  | Thrown (e : E).
Arguments Returned {E A} a.
Arguments Thrown {E A} e.

Definition M (S E A : Type) : Type := S -> S * Outcome E A.

Definition ret {S E A} (a : A) : M S E A := fun s => (s, Returned a).

Definition throw {S E A} (e : E) : M S E A := fun s => (s, Thrown e).

Definition bind {S E A B} (m : M S E A) (k : A -> M S E B) : M S E B :=
  fun s =>
    match m s with
    | (s', Returned a) => k a s'
    | (s', Thrown e) => (s', Thrown e)
    end.

Notation "x <- m ;; k" := (bind m (fun x => k))
  (at level 100, m at next level, right associativity).
Notation "m ;;; k" := (bind m (fun _ => k))
  (at level 100, right associativity).

Definition modify {S E} (f : S -> S) : M S E unit := fun s => (f s, Returned tt).

Definition gets {S E A} (f : S -> A) : M S E A := fun s => (s, Returned (f s)).

(** [try { body } catch (e) { handler e }] *)
Definition tryCatch {S E E' A} (body : M S E A) (handler : E -> M S E' A)
  : M S E' A :=
  fun s =>
    match body s with
    | (s', Returned a) => (s', Returned a)
    | (s', Thrown e) => handler e s'
    end.

(** [try { body } catch (e) { handler e } finally { cleanup }]: the cleanup
    runs on every path; when it throws, its exception replaces the outcome. *)
Definition tryCatchFinally {S E E' A} (body : M S E A) (handler : E -> M S E' A)
    (cleanup : M S E' unit) : M S E' A :=
  fun s =>
    match tryCatch body handler s with
    | (s', r) =>
        match cleanup s' with
        | (s'', Returned _) => (s'', r)
        | (s'', Thrown e) => (s'', Thrown e)
        end
    end.

(** ** The file system the generator writes to (Node's [fs] and [path]) *)

Record FileSystem : Type := {
  dirs : gset string;            (* directories that exist *)
  files : gmap string string;    (* file path -> content *)
  denied : gset string           (* paths on which a write is refused *)
}.

(** [path.join(a, b)] for two non-empty, already normalised segments. *)
Definition path_join (a b : string) : string := a +:+ "/" +:+ b.

Definition existsSync (p : string) (fs : FileSystem) : bool :=
  bool_decide (p ∈ dirs fs) || bool_decide (is_Some (files fs !! p)).

(** The prefixes of a path that end before a [/], then the path itself,
    shortest first; [before] is the part already read. *)
Fixpoint pathPrefixes (before rest : string) : list string :=
  match rest with
  | EmptyString => [before]
  | String c r =>
      if Ascii.eqb c "/" then before :: pathPrefixes (before +:+ "/") r
      else pathPrefixes (before +:+ String c EmptyString) r
  end.

(** The directories [mkdirSync(p, { recursive: true })] makes sure of: [p]
    and each of its ancestors, the root (the empty prefix of an absolute
    path) excepted. *)
Definition pathAncestors (p : string) : list string :=
  List.filter (fun d => negb (String.eqb d EmptyString)) (pathPrefixes EmptyString p).

(** [mkdirSync(p, { recursive: true })] *)
Definition mkdirSync (p : string) : M FileSystem string unit :=
  fun fs =>
    if bool_decide (p ∈ denied fs)
    then (fs, Thrown ("EACCES: permission denied, mkdir '" +:+ p +:+ "'"))
    else ({| dirs := list_to_set (pathAncestors p) ∪ dirs fs; files := files fs;
             denied := denied fs |},
          Returned tt).

Definition writeFileSync (p data : string) : M FileSystem string unit :=
  fun fs =>
    if bool_decide (p ∈ denied fs)
    then (fs, Thrown ("EACCES: permission denied, open '" +:+ p +:+ "'"))
    else ({| dirs := dirs fs; files := <[p := data]> (files fs); denied := denied fs |},
          Returned tt).

Definition nl : string := String "010"%char EmptyString.

(** [writeFile] of helperF.js *)
Definition writeFile (filePath content : string) : M FileSystem string unit :=
  tryCatch (writeFileSync filePath (Js.trim content +:+ nl))
    (fun error => throw ("Failed to write file: " +:+ filePath +:+ nl +:+ error)).

(** ** helper/generateCollectionActionModule.js *)

Record ActionDescriptor : Type := {
  key : string;
  exportName : string -> string;
  jsdoc : string -> string
}.

(** Every [jsdoc] template of the table has this shape: a summary line, then
    the [@function], [@param] and [@returns] lines. *)
Definition docBlock (summary forwardedTo : string) : string :=
  "/**" +:+ nl +:+
  " * " +:+ summary +:+ nl +:+
  " * @function" +:+ nl +:+
  " * @param {...any} args - Arguments forwarded to " +:+ forwardedTo +:+ nl +:+
  " * @returns {Promise<void>}" +:+ nl +:+
  " */".

Definition actionDescriptors : list ActionDescriptor := [
  {| key := "fetchInitialPage";
     exportName := fun suffix => "fetchInitialPage" +:+ suffix;
     jsdoc := fun name =>
       docBlock ("Fetches the first page of " +:+ name +:+ " with optional filters and sorting.")
                "fetchInitialPage" |};
  {| key := "fetchNextPage";
     exportName := fun suffix => "fetchNextPage" +:+ suffix;
     jsdoc := fun name =>
       docBlock ("Fetches the next page of " +:+ name +:+ " (pagination).") "fetchNextPage" |};
  {| key := "applyFilters";
     exportName := fun suffix => "apply" +:+ suffix +:+ "Filters";
     jsdoc := fun name =>
       docBlock ("Applies filters to the " +:+ name +:+ " collection query.") "applyFilters" |};
  {| key := "changeSorting";
     exportName := fun suffix => "change" +:+ suffix +:+ "Sorting";
     jsdoc := fun name =>
       docBlock ("Changes the sorting of the " +:+ name +:+ " collection.") "changeSorting" |};
  {| key := "add";
     exportName := fun suffix => "add" +:+ suffix;
     jsdoc := fun name =>
       docBlock ("Adds a new " +:+ name +:+ " document to the collection.") "add" |};
  {| key := "get";
     exportName := fun suffix => "get" +:+ suffix;
     jsdoc := fun name => docBlock "Gets a document from the collection." "get" |};
  {| key := "getWhere";
     exportName := fun suffix => "getWhere" +:+ suffix;
     jsdoc := fun name =>
       docBlock "Gets a document based on the condition from the collection, e.g clientId = 'xxx'."
                "get" |};
  {| key := "update";
     exportName := fun suffix => "update" +:+ suffix;
     jsdoc := fun name =>
       docBlock ("Updates an existing " +:+ name +:+ " document.") "update" |};
  {| key := "search";
     exportName := fun suffix => "search" +:+ suffix;
     jsdoc := fun name =>
       docBlock ("Searches " +:+ name +:+ " documents by a term and optional field.") "search" |};
  {| key := "clearSearch";
     exportName := fun suffix => "clear" +:+ suffix +:+ "Search";
     jsdoc := fun name =>
       docBlock ("Clears the current " +:+ name +:+ " search results.") "clearSearch" |};
  {| key := "remove";
     exportName := fun suffix => "delete" +:+ suffix;
     jsdoc := fun name =>
       docBlock ("Deletes a " +:+ name +:+ " document by ID.") "remove" |};
  {| key := "assignRoles";
     exportName := fun suffix => "assign" +:+ suffix +:+ "Roles";
     jsdoc := fun name =>
       docBlock ("Assigns roles to a " +:+ Js.toLowerCase name +:+ " user.") "assignRoles" |};
  {| key := "revokeRoles";
     exportName := fun suffix => "revoke" +:+ suffix +:+ "Roles";
     jsdoc := fun name =>
       docBlock ("Revokes roles from a " +:+ Js.toLowerCase name +:+ " user.") "revokeRoles" |}
].

Definition isLetter (c : ascii) : bool := Js.isLower c || Js.isUpper c.

Definition isNameChar (c : ascii) : bool :=
  isLetter c || Js.isDigit c || Ascii.eqb c "_" || Ascii.eqb c "-".

Fixpoint allChars (p : ascii -> bool) (s : string) : bool :=
  match s with
  | EmptyString => true
  | String c r => p c && allChars p r
  end.

(** [/^[a-z][a-z0-9_-]{0,63}$/i.test(collectionName)] *)
Definition validCollectionName (collectionName : string) : bool :=
  match collectionName with
  | EmptyString => false
  | String c r => isLetter c && allChars isNameChar r && (String.length r <=? 63)
  end.

(** The text up to and including the [return {] line. *)
Definition moduleHeader (collectionName suffix : string) : string :=
  "import { useFirestoreCollectionActions } from '../useFirestoreCollectionActions.js';" +:+ nl +:+ nl +:+
  "/**" +:+ nl +:+
  " * Generates a set of Firestore actions scoped to the `" +:+ collectionName +:+ "` collection." +:+ nl +:+
  " *" +:+ nl +:+
  " * @param {Object} state - Pinia store state" +:+ nl +:+
  " * @returns {Object} " +:+ collectionName +:+ "Actions - A set of methods to interact with the " +:+ collectionName +:+ " Firestore collection" +:+ nl +:+
  " */" +:+ nl +:+
  "export function use" +:+ suffix +:+ "Actions(state) {" +:+ nl +:+
  "  let actionsInstance = null;" +:+ nl +:+ nl +:+
  "  /**" +:+ nl +:+
  "   * Lazily initializes and retrieves the " +:+ collectionName +:+ " collection actions." +:+ nl +:+
  "   * @returns {Object} Firestore collection methods for '" +:+ collectionName +:+ "'" +:+ nl +:+
  "   */" +:+ nl +:+
  "  const getActions = () => {" +:+ nl +:+
  "    if (!actionsInstance) {" +:+ nl +:+
  "      actionsInstance = useFirestoreCollectionActions('" +:+ collectionName +:+ "', state);" +:+ nl +:+
  "    }" +:+ nl +:+
  "    return actionsInstance;" +:+ nl +:+
  "  };" +:+ nl +:+ nl +:+
  "  return {" +:+ nl.

(** What one round of the [forEach] appends for a descriptor: the documentation
    derived from [suffix], re-indented, and the forwarding wrapper. *)
Definition memberDoc (suffix : string) (d : ActionDescriptor) : string :=
  Js.replaceChar "010"%char (nl +:+ "    ") (jsdoc d suffix).

Definition memberText (suffix : string) (d : ActionDescriptor) : string :=
  let funcName := exportName d suffix in
  "    " +:+ memberDoc suffix d +:+ nl +:+
  "    " +:+ funcName +:+ "(...args) {" +:+ nl +:+
  "      return getActions()." +:+ key d +:+ "(...args);" +:+ nl +:+
  "    }," +:+ nl +:+ nl.

Definition moduleFooter : string := "  };" +:+ nl +:+ "}" +:+ nl.

(** [const suffix = capitalize(collectionName)] *)
Definition moduleSuffix (collectionName : string) : string := capitalize collectionName.

(** The [content] the composer has built when it reaches [writeFile]. *)
Definition moduleContent (collectionName : string) : string :=
  let suffix := moduleSuffix collectionName in
  foldl (fun content d => content +:+ memberText suffix d)
        (moduleHeader collectionName suffix) actionDescriptors
  +:+ moduleFooter.

(** The member names of the object the generated function returns, in order. *)
Definition memberNames (collectionName : string) : list string :=
  map (fun d => exportName d (moduleSuffix collectionName)) actionDescriptors.

(** The function the generated module exports: [export function use<suffix>Actions]. *)
Definition exportedFunctionName (collectionName : string) : string :=
  "use" +:+ moduleSuffix collectionName +:+ "Actions".

Record GenerationResult : Type := { success : bool; path : string }.

Definition generateCollectionActionModule (baseDir collectionName : string)
  : M FileSystem string GenerationResult :=
  tryCatch
    (if negb (validCollectionName collectionName)
     then throw ("Invalid Firestore collection name: " +:+ collectionName)
     else
       let actionsDir := path_join baseDir "actions" in
       (fun fs => if existsSync actionsDir fs then ret tt fs else mkdirSync actionsDir fs) ;;;
       let filePath := path_join actionsDir (collectionName +:+ ".js") in
       writeFile filePath (moduleContent collectionName) ;;;
       ret {| success := true; path := filePath |})
    (fun error =>
       throw ("[Action Generator] " +:+ collectionName +:+ " failed: " +:+ error)).

(** ** index.js: the driver's classification and collection list *)

Definition authCollectionNouns : list string :=
  ["users"; "user"; "customer"; "client"; "clients"; "customers"; "student";
   "students"; "admins"; "admin"; "accounts"; "account"].

Definition isAuthCollection (collectionName : string) : bool :=
  bool_decide (Js.toLowerCase collectionName ∈ authCollectionNouns).

(** [toCamelCase(c).trim()], the name the driver hands to every composer. *)
Definition driverCollectionName (c : string) : string := Js.trim (toCamelCase c).

(** ** helper/generateIndexFile.js: the import lines *)

Definition actionImportLine (col : string) : string :=
  "import { useFirestoreCollectionActions as use" +:+ capitalize col +:+
  "Actions } from './actions/" +:+ col +:+ ".js';".

Definition actionImports (collections : list string) : string :=
  String.concat nl (map actionImportLine collections).

(** An import declaration [import { imported as localName } from 'source';]. *)
Record ImportDeclaration : Type := {
  imported : string;
  localName : string;
  source : string
}.

Definition renderImport (i : ImportDeclaration) : string :=
  "import { " +:+ imported i +:+ " as " +:+ localName i +:+ " } from '" +:+ source i +:+ "';".

(** ** helper/generateIndexFile.js: the generated authentication flows

    The index composer emits, for a store with an auth collection, eight
    functions over the store's refs.  They are embedded here statement by
    statement, for a primary auth collection that is present (the emitted
    [<primary>Actions] object is truthy).  Firebase and the primary
    collection's actions are collaborators: what each awaited call yields is
    given by a [Firebase] record. *)

Inductive JsValue : Type :=
  | VUndefined
  | VNull
  | VBool (b : bool)
  | VStr (s : string)
  | VObj (fields : list (string * JsValue)).

Definition JsObject : Type := list (string * JsValue).

Definition truthy (v : JsValue) : bool :=
  match v with
  | VUndefined | VNull => false
  | VBool b => b
  | VStr s => negb (String.eqb s EmptyString)
  | VObj _ => true
  end.

(** [a || b] *)
Definition jsOr (a b : JsValue) : JsValue := if truthy a then a else b.

(** [o.k] *)
Fixpoint objGet (k : string) (o : JsObject) : JsValue :=
  match o with
  | [] => VUndefined
  | (k', v) :: o' => if String.eqb k k' then v else objGet k o'
  end.

(** [o.k = v]: an existing property keeps its place, a new one goes last. *)
Fixpoint objSet (k : string) (v : JsValue) (o : JsObject) : JsObject :=
  match o with
  | [] => [(k, v)]
  | (k', v') :: o' => if String.eqb k k' then (k, v) :: o' else (k', v') :: objSet k v o'
  end.

(** The properties an object literal ends up with, written in source order. *)
Definition objLiteral (props : list (string * JsValue)) : JsObject :=
  foldl (fun o kv => objSet kv.1 kv.2 o) [] props.

(** [{ ...a, ...b }] *)
Definition spread (a b : JsObject) : JsObject :=
  foldl (fun o kv => objSet kv.1 kv.2 o) a b.

(** [...v] inside an object literal: [null] and [undefined] contribute
    nothing. *)
Definition spreadable (v : JsValue) : JsObject :=
  match v with
  | VObj o => o
  | _ => []
  end.

(** A thrown value: Firebase errors carry a [code], [new Error(m)] only a
    message, and the flows re-throw [{ code, message, originalError }]. *)
Inductive JsError : Type :=
  mkError (errCode : option string) (errMessage : option string)
          (originalError : option JsError).

Definition errCode (e : JsError) : option string :=
  match e with mkError c _ _ => c end.
Definition errMessage (e : JsError) : option string :=
  match e with mkError _ m _ => m end.
Definition originalError (e : JsError) : option JsError :=
  match e with mkError _ _ o => o end.

(** [new Error(message)] *)
Definition newError (message : string) : JsError := mkError None (Some message) None.

(** [error.message] as a value *)
Definition messageValue (e : JsError) : JsValue :=
  match errMessage e with
  | Some m => VStr m
  | None => VUndefined
  end.

(** [error.message || fallback] *)
Definition messageOr (e : JsError) (fallback : string) : string :=
  match errMessage e with
  | Some m => if String.eqb m EmptyString then fallback else m
  | None => fallback
  end.

(** [switch (error.code) { case c: errorMessage = m; break; ...
    default: errorMessage = error.message || fallback }] *)
Fixpoint switchCode (cases : list (string * string)) (fallback : string)
    (error : JsError) : string :=
  match cases with
  | [] => messageOr error fallback
  | (c, m) :: cases' =>
      match errCode error with
      | Some c' => if String.eqb c' c then m else switchCode cases' fallback error
      | None => switchCode cases' fallback error
      end
  end.

(** Firebase's [User] object. *)
Record FirebaseUser : Type := {
  uid : JsValue;
  email : JsValue;
  emailVerified : JsValue;
  displayName : JsValue;
  photoURL : JsValue;
  creationTime : JsValue;
  lastSignInTime : JsValue
}.

(** The refs of the store's state object.  [emailVerificationSent] is
    [None] when the state object has no such ref, as is the case for the
    state module this generator writes. *)
Record Store : Type := {
  loading : bool;
  error : JsValue;
  currentUser : JsValue;
  authInitialized : bool;
  emailVerificationSent : option bool
}.

Inductive Write : Type :=
  | WLoading (b : bool)
  | WError (v : JsValue)
  | WCurrentUser (v : JsValue)
  | WAuthInitialized (b : bool)
  | WEmailVerificationSent (b : bool).

(** The running store: its refs, how many auth-state listeners have been
    registered with Firebase, and the history of assignments to the refs,
    oldest first. *)
Record AuthState : Type := {
  store : Store;
  subscriptions : nat;
  writes : list Write
}.

Record Firebase : Type := {
  fb_setPersistence : Outcome JsError unit;
  fb_signInWithEmailAndPassword : string -> string -> Outcome JsError FirebaseUser;
  fb_createUserWithEmailAndPassword : string -> string -> Outcome JsError FirebaseUser;
  (* the user object after the profile update *)
  fb_updateProfile : FirebaseUser -> JsValue -> JsValue -> Outcome JsError FirebaseUser;
  fb_signOut : Outcome JsError unit;
  fb_sendEmailVerification : FirebaseUser -> Outcome JsError unit;
  fb_sendPasswordResetEmail : string -> Outcome JsError unit;
  fb_reauthenticateWithCredential : FirebaseUser -> JsValue -> string -> Outcome JsError unit;
  fb_updatePassword : FirebaseUser -> string -> Outcome JsError unit;
  (* [auth.currentUser] *)
  fb_currentUser : option FirebaseUser;
  (* [<primary>Actions.get<Primary>(uid)], [.add<Primary>(data)], [.update(uid, data)] *)
  primary_get : JsValue -> Outcome JsError (option JsObject);
  primary_add : JsObject -> Outcome JsError unit;
  primary_update : JsValue -> JsObject -> Outcome JsError unit;
  (* [new Date().toISOString()] *)
  nowISO : string
}.

Definition Flow (A : Type) : Type := M AuthState JsError A.

(** [await call]: the collaborator's outcome, the store untouched. *)
Definition await {A} (r : Outcome JsError A) : Flow A := fun s => (s, r).

Definition assign (w : Write) (f : Store -> Store) : Flow unit :=
  modify (fun s => {| store := f (store s);
                      subscriptions := subscriptions s;
                      writes := writes s ++ [w] |}).

(** [state.loading.value = b] *)
Definition setLoading (b : bool) : Flow unit :=
  assign (WLoading b)
    (fun st => {| loading := b; error := error st; currentUser := currentUser st;
                  authInitialized := authInitialized st;
                  emailVerificationSent := emailVerificationSent st |}).

(** [state.error.value = v] *)
Definition setError (v : JsValue) : Flow unit :=
  assign (WError v)
    (fun st => {| loading := loading st; error := v; currentUser := currentUser st;
                  authInitialized := authInitialized st;
                  emailVerificationSent := emailVerificationSent st |}).

(** [state.currentUser.value = v] *)
Definition setCurrentUser (v : JsValue) : Flow unit :=
  assign (WCurrentUser v)
    (fun st => {| loading := loading st; error := error st; currentUser := v;
                  authInitialized := authInitialized st;
                  emailVerificationSent := emailVerificationSent st |}).

(** [state.authInitialized.value = b] *)
Definition setAuthInitialized (b : bool) : Flow unit :=
  assign (WAuthInitialized b)
    (fun st => {| loading := loading st; error := error st; currentUser := currentUser st;
                  authInitialized := b;
                  emailVerificationSent := emailVerificationSent st |}).

(** [state.emailVerificationSent.value = b]: a [TypeError] when the state
    object has no [emailVerificationSent]. *)
Definition setEmailVerificationSent (b : bool) : Flow unit :=
  fun s =>
    match emailVerificationSent (store s) with
    | None =>
        (s, Thrown (newError "Cannot set properties of undefined (setting 'value')"))
    | Some _ =>
        assign (WEmailVerificationSent b)
          (fun st => {| loading := loading st; error := error st;
                        currentUser := currentUser st;
                        authInitialized := authInitialized st;
                        emailVerificationSent := Some b |}) s
    end.

(** [{ uid, email, emailVerified, displayName, photoURL,
       metadata: { creationTime, lastSignInTime } }] *)
Definition basicUser (u : FirebaseUser) : JsObject :=
  objLiteral [
    ("uid", uid u); ("email", email u); ("emailVerified", emailVerified u);
    ("displayName", displayName u); ("photoURL", photoURL u);
    ("metadata", VObj (objLiteral [("creationTime", creationTime u);
                                   ("lastSignInTime", lastSignInTime u)]))
  ].

(** [catch (error) { switch ...; state.error.value = errorMessage;
    throw { code: error.code, message: errorMessage, originalError: error } }] *)
Definition classifyAndRethrow {A} (cases : list (string * string)) (fallback : string)
    (error : JsError) : Flow A :=
  let errorMessage := switchCode cases fallback error in
  setError (VStr errorMessage) ;;;
  throw (mkError (errCode error) (Some errorMessage) (Some error)).

(** [catch (error) { state.error.value = error.message;
    throw { code, message, originalError: error } }] *)
Definition recordAndRethrow {A} (code message : string) (error : JsError) : Flow A :=
  setError (messageValue error) ;;;
  throw (mkError (Some code) (Some message) (Some error)).

Record AuthResponse : Type := { ok : bool; user : JsValue }.

Section GeneratedFlows.

Variable fb : Firebase.

Definition login (email_ password : string) : Flow AuthResponse :=
  setLoading true ;;;
  setError VNull ;;;
  tryCatchFinally
    (await (fb_setPersistence fb) ;;;
     u <- await (fb_signInWithEmailAndPassword fb email_ password) ;;
     let user0 := basicUser u in
     user1 <- (if truthy (objGet "uid" user0)
               then tryCatch
                      (userProfile <- await (primary_get fb (objGet "uid" user0)) ;;
                       ret (match userProfile with
                            | Some p => spread user0 p
                            | None => user0
                            end))
                      (fun profileError => ret user0)
               else ret user0) ;;
     setCurrentUser (VObj user1) ;;;
     cu <- gets (fun s => currentUser (store s)) ;;
     ret {| ok := true; user := cu |})
    (classifyAndRethrow
       [("auth/user-not-found", "No user found with this email.");
        ("auth/wrong-password", "Incorrect password.");
        ("auth/invalid-credential", "Invalid email or password.");
        ("auth/too-many-requests",
         "Too many failed login attempts. Account temporarily locked.");
        ("auth/user-disabled", "This account has been disabled.")]
       "An unknown authentication error occurred.")
    (setLoading false).

Definition signUp (email_ password : string) (profileData : JsObject)
    (sendVerification : bool) : Flow AuthResponse :=
  setLoading true ;;;
  setError VNull ;;;
  tryCatchFinally
    (created <- await (fb_createUserWithEmailAndPassword fb email_ password) ;;
     firebaseUser <-
       (if truthy (objGet "displayName" profileData) || truthy (objGet "photoURL" profileData)
        then await (fb_updateProfile fb created (objGet "displayName" profileData)
                                     (objGet "photoURL" profileData))
        else ret created) ;;
     let userFirestoreData :=
       spread
         (objLiteral [
            ("uid", uid firebaseUser); ("email", email firebaseUser);
            ("emailVerified", emailVerified firebaseUser);
            ("displayName",
             jsOr (jsOr (displayName firebaseUser) (objGet "displayName" profileData)) VNull);
            ("photoURL",
             jsOr (jsOr (photoURL firebaseUser) (objGet "photoURL" profileData)) VNull);
            ("createdAt", creationTime firebaseUser);
            ("lastSignInTime", lastSignInTime firebaseUser)])
         profileData in
     await (primary_add fb userFirestoreData) ;;;
     (if sendVerification
      then await (fb_sendEmailVerification fb firebaseUser) ;;;
           setEmailVerificationSent true
      else ret tt) ;;;
     setCurrentUser (VObj userFirestoreData) ;;;
     cu <- gets (fun s => currentUser (store s)) ;;
     ret {| ok := true; user := cu |})
    (classifyAndRethrow
       [("auth/email-already-in-use", "This email address is already registered.");
        ("auth/invalid-email", "The email address is not valid.");
        ("auth/weak-password",
         "The password is too weak. Please choose a stronger password.");
        ("auth/operation-not-allowed",
         "Email/password accounts are not enabled. Please contact support.")]
       "An unknown registration error occurred.")
    (setLoading false).

Definition logout : Flow AuthResponse :=
  setLoading true ;;;
  setError VNull ;;;
  tryCatchFinally
    (await (fb_signOut fb) ;;;
     setCurrentUser VNull ;;;
     setEmailVerificationSent false ;;;
     ret {| ok := true; user := VUndefined |})
    (recordAndRethrow "auth/logout-failed" "Logout failed")
    (setLoading false).

Definition sendPasswordReset (email_ : string) : Flow AuthResponse :=
  setLoading true ;;;
  setError VNull ;;;
  tryCatchFinally
    (await (fb_sendPasswordResetEmail fb email_) ;;;
     ret {| ok := true; user := VUndefined |})
    (classifyAndRethrow
       [("auth/user-not-found", "No user found with this email address.");
        ("auth/invalid-email", "The email address is not valid.")]
       "An unknown error occurred while sending reset email.")
    (setLoading false).

Definition updateProfile (profileData : JsObject) : Flow AuthResponse :=
  setLoading true ;;;
  setError VNull ;;;
  tryCatchFinally
    (authUser <- match fb_currentUser fb with
                 | None => throw (newError "No authenticated user to update profile.")
                 | Some u => ret u
                 end ;;
     updated <- await (fb_updateProfile fb authUser (objGet "displayName" profileData)
                                        (objGet "photoURL" profileData)) ;;
     before <- gets (fun s => currentUser (store s)) ;;
     setCurrentUser
       (VObj (spread (spreadable before)
                     (objLiteral [("displayName", displayName updated);
                                  ("photoURL", photoURL updated)]))) ;;;
     cu <- gets (fun s => currentUser (store s)) ;;
     (if truthy (objGet "uid" (spreadable cu))
      then
        await (primary_update fb (objGet "uid" (spreadable cu))
                 (spread profileData (objLiteral [("updatedAt", VStr (nowISO fb))]))) ;;;
        updatedProfile <- await (primary_get fb (objGet "uid" (spreadable cu))) ;;
        match updatedProfile with
        | Some p => setCurrentUser (VObj (spread (spreadable cu) p))
        | None => ret tt
        end
      else ret tt) ;;;
     cu' <- gets (fun s => currentUser (store s)) ;;
     ret {| ok := true; user := cu' |})
    (recordAndRethrow "auth/profile-update-failed" "Profile update failed")
    (setLoading false).

Definition changePassword (currentPassword newPassword : string) : Flow AuthResponse :=
  setLoading true ;;;
  setError VNull ;;;
  tryCatchFinally
    (authUser <- match fb_currentUser fb with
                 | Some u =>
                     if truthy (email u) then ret u
                     else throw (newError
                       "No authenticated user or email not available for reauthentication.")
                 | None =>
                     throw (newError
                       "No authenticated user or email not available for reauthentication.")
                 end ;;
     await (fb_reauthenticateWithCredential fb authUser (email authUser) currentPassword) ;;;
     await (fb_updatePassword fb authUser newPassword) ;;;
     ret {| ok := true; user := VUndefined |})
    (classifyAndRethrow
       [("auth/wrong-password", "The current password you entered is incorrect.");
        ("auth/requires-recent-login",
         "Your session has expired. Please log in again to change your password.");
        ("auth/weak-password",
         "The new password is too weak. Please choose a stronger password.")]
       "An unknown error occurred while changing password.")
    (setLoading false).

Definition resendVerificationEmail : Flow AuthResponse :=
  setLoading true ;;;
  setError VNull ;;;
  tryCatchFinally
    (authUser <- match fb_currentUser fb with
                 | None => throw (newError "No authenticated user to send verification email.")
                 | Some u => ret u
                 end ;;
     await (fb_sendEmailVerification fb authUser) ;;;
     setEmailVerificationSent true ;;;
     ret {| ok := true; user := VUndefined |})
    (classifyAndRethrow
       [("auth/too-many-requests", "Too many requests. Please wait before trying again.")]
       "An unknown error occurred.")
    (setLoading false).

(** *** Session restore

    [fetchUser()] returns a promise.  Its executor runs at once: while
    [authInitialized] is false it registers a listener with
    [onAuthStateChanged], otherwise it resolves with the current user.  The
    promise of a call that registered a listener is resolved by the
    listener's first run. *)

Inductive FetchUserPromise : Type :=
  | ResolvedWith (v : JsValue)
  | AwaitingListener.

Definition onAuthStateChanged : Flow unit :=
  modify (fun s => {| store := store s;
                      subscriptions := S (subscriptions s);
                      writes := writes s |}).

Definition fetchUser : Flow FetchUserPromise :=
  initialized <- gets (fun s => authInitialized (store s)) ;;
  if negb initialized
  then onAuthStateChanged ;;; ret AwaitingListener
  else cu <- gets (fun s => currentUser (store s)) ;; ret (ResolvedWith cu).

(** The listener [async (firebaseUser) => { ... }], run to completion; it
    returns the value it passes to [resolve]. *)
Definition authListener (firebaseUser : option FirebaseUser) : Flow JsValue :=
  tryCatchFinally
    (match firebaseUser with
     | Some u =>
         tryCatch
           (userProfile <- await (primary_get fb (uid u)) ;;
            setCurrentUser (VObj (match userProfile with
                                  | Some p => spread (basicUser u) p
                                  | None => basicUser u
                                  end)))
           (fun profileError => setCurrentUser (VObj (basicUser u)))
     | None => setCurrentUser VNull
     end)
    (fun error => setCurrentUser VNull ;;; setError (messageValue error))
    (setAuthInitialized true) ;;;
  gets (fun s => currentUser (store s)).

(** Firebase reports an auth state: every registered listener runs once. *)
Fixpoint notifyListeners (n : nat) (firebaseUser : option FirebaseUser) : Flow unit :=
  match n with
  | 0 => ret tt
  | S n' => authListener firebaseUser ;;; notifyListeners n' firebaseUser
  end.

Definition authStateChanged (firebaseUser : option FirebaseUser) : Flow unit :=
  fun s => notifyListeners (subscriptions s) firebaseUser s.

End GeneratedFlows.

(** ** Statements of the specification, for comparison with the code *)

(** The identifier pattern as the specification words it,
    [^[A-Za-z][A-Za-z0-9_-]*$]: a letter, then any number of letters, digits,
    underscores and hyphens. *)
Definition matchesSpecPattern (rawName : string) : bool :=
  match rawName with
  | EmptyString => false
  | String c r => isLetter c && allChars isNameChar r
  end.

(** The import the index composer emits for a collection, as a declaration. *)
Definition actionImport (col : string) : ImportDeclaration :=
  {| imported := "useFirestoreCollectionActions";
     localName := "use" +:+ capitalize col +:+ "Actions";
     source := "./actions/" +:+ col +:+ ".js" |}.

(** How often a name occurs among the members of a generated module. *)
Definition memberCount (name : string) (collectionName : string) : nat :=
  length (List.filter (fun n => String.eqb n name) (memberNames collectionName)).

Definition notNewline (c : ascii) : bool := negb (Ascii.eqb "010"%char c).

(** The error the composer raises for a name that fails its check, as it
    leaves the function. *)
Definition invalidNameError (collectionName : string) : string :=
  "[Action Generator] " +:+ collectionName +:+
  " failed: Invalid Firestore collection name: " +:+ collectionName.

(** Where the composer writes the module of a collection. *)
Definition actionsDirOf (baseDir : string) : string := path_join baseDir "actions".
Definition modulePathOf (baseDir collectionName : string) : string :=
  path_join (actionsDirOf baseDir) (collectionName +:+ ".js").

(** What a descriptor's documentation mentions of the name it is given:
    nothing for [get] and [getWhere], the lower-cased name for the two role
    descriptors, the name itself otherwise. *)
Definition docMention (d : ActionDescriptor) (name : string) : option string :=
  if String.eqb (key d) "get" || String.eqb (key d) "getWhere" then None
  else if String.eqb (key d) "assignRoles" || String.eqb (key d) "revokeRoles"
       then Some (Js.toLowerCase name)
       else Some name.

(** A store as the generated state module creates it, before any flow ran. *)
Definition freshStore : Store :=
  {| loading := false; error := VNull; currentUser := VNull;
     authInitialized := false; emailVerificationSent := None |}.

Definition freshAuthState : AuthState :=
  {| store := freshStore; subscriptions := 0; writes := [] |}.





(** A Firebase on which nobody is signed in and every call succeeds. *)
Definition signedOutFirebase : Firebase :=
  let nobody := {| uid := VNull; email := VNull; emailVerified := VNull;
                   displayName := VNull; photoURL := VNull;
                   creationTime := VNull; lastSignInTime := VNull |} in
  {| fb_setPersistence := Returned tt;
     fb_signInWithEmailAndPassword := fun _ _ => Thrown (mkError (Some "auth/user-not-found") None None);
     fb_createUserWithEmailAndPassword := fun _ _ => Returned nobody;
     fb_updateProfile := fun u _ _ => Returned u;
     fb_signOut := Returned tt;
     fb_sendEmailVerification := fun _ => Returned tt;
     fb_sendPasswordResetEmail := fun _ => Returned tt;
     fb_reauthenticateWithCredential := fun _ _ _ => Returned tt;
     fb_updatePassword := fun _ _ => Returned tt;
     fb_currentUser := None;
     primary_get := fun _ => Returned None;
     primary_add := fun _ => Returned tt;
     primary_update := fun _ _ => Returned tt;
     nowISO := "2025-01-01T00:00:00.000Z" |}.

Definition notSpace (c : ascii) : bool := negb (Js.isSpace c).
Definition notSeparator (c : ascii) : bool := negb (isWordSeparator c).

(** A file system with nothing on it and no path refused. *)
Definition emptyFileSystem : FileSystem :=
  {| dirs := ∅; files := ∅; denied := ∅ |}.

(** ** index.js: the collection list of a run and the loop over it *)

(** [str.split(',')], a separator of one character: every occurrence ends a
    token, so two commas in a row and a comma at either end leave empty
    tokens, and the empty string splits into one empty token. *)
Fixpoint splitOn (sep : ascii) (s : string) : list string :=
  match s with
  | EmptyString => [EmptyString]
  | String c r =>
      if Ascii.eqb c sep then EmptyString :: splitOn sep r
      else
        match splitOn sep r with
        | t :: ts => String c t :: ts
        | [] => [String c EmptyString]
        end
  end.

(** [Boolean(str)] *)
Definition nonEmpty (s : string) : bool := negb (String.eqb s EmptyString).

(** [collectionsInput.split(',').map(c => toCamelCase(c).trim()).filter(Boolean)] *)
Definition driverCollections (collectionsInput : string) : list string :=
  List.filter nonEmpty (map driverCollectionName (splitOn "," collectionsInput)).

(** [collections.filter(isAuthCollection)] *)
Definition driverAuthCollections (collectionsInput : string) : list string :=
  List.filter isAuthCollection (driverCollections collectionsInput).

(** [arr.forEach(f)]: the elements in order; a throw ends the loop. *)
Fixpoint forEach {S E A} (f : A -> M S E unit) (l : list A) : M S E unit :=
  match l with
  | [] => ret tt
  | x :: l' => f x ;;; forEach f l'
  end.

(** [collections.forEach(collection => {
       generateCollectionActionModule(baseDir, collection); })] *)
Definition generateCollectionModules (baseDir : string) (collections : list string)
  : M FileSystem string unit :=
  forEach (fun collection => generateCollectionActionModule baseDir collection ;;; ret tt)
          collections.

(** A base directory as [path.join] returns one, for which joining a name is
    appending [/] and the name: the segments between the slashes are neither
    empty nor [.] nor [..]; only an absolute path starts with an empty
    segment, and it has more segments. *)
Definition plainSegment (seg : string) : bool :=
  nonEmpty seg && negb (String.eqb seg ".") && negb (String.eqb seg "..").

Definition normalisedPath (p : string) : bool :=
  match splitOn "/" p with
  | [] => false
  | [only] => plainSegment only
  | first :: rest =>
      (String.eqb first EmptyString || plainSegment first) && forallb plainSegment rest
  end.


Definition notComma (c : ascii) : bool := negb (Ascii.eqb c ",").
Definition notHyphen (c : ascii) : bool := negb (Ascii.eqb c "-").
Definition isAscii (c : ascii) : bool := Js.code c <? 128.

(** The members of a generated module, one after the other. *)
Definition membersText (suffix : string) (ds : list ActionDescriptor) : string :=
  foldr (fun d rest => memberText suffix d +:+ rest) EmptyString ds.

(** The user the auth-state listener stores for what Firebase reports: none,
    the Firebase fields merged with the profile, or the Firebase fields alone
    when there is no profile or fetching it failed. *)
Definition listenerUser (fb : Firebase) (firebaseUser : option FirebaseUser) : JsValue :=
  match firebaseUser with
  | None => VNull
  | Some u =>
      match primary_get fb (uid u) with
      | Returned (Some p) => VObj (spread (basicUser u) p)
      | _ => VObj (basicUser u)
      end
  end.

(** The property names of an object, in order. *)
Definition objKeys (o : JsObject) : list string := map fst o.

(** A flow that never assigns [error]. *)
Definition keepsError {A} (flow : Flow A) : Prop :=
  forall s : AuthState, error (store (flow s).1) = error (store s).


(** How [logout] and [updateProfile] end: a throw always has the flow's own
    code and message, while [error] receives the message of the cause. *)
Definition failureIsRelabelled {A} (code message : string) (flow : Flow A) : Prop :=
  forall s : AuthState,
    match flow s with
    | (s', Returned _) => error (store s') = VNull
    | (s', Thrown e) =>
        exists cause : JsError,
          e = mkError (Some code) (Some message) (Some cause)
          /\ error (store s') = messageValue cause
    end.

(** The user object [login] builds once Firebase has signed the user in. *)
Definition loggedInUser (fb : Firebase) (u : FirebaseUser) : JsObject :=
  if truthy (uid u) then
    match primary_get fb (uid u) with
    | Returned (Some userProfile) => spread (basicUser u) userProfile
    | _ => basicUser u
    end
  else basicUser u.

(** A Firebase that knows one user, whose profile document carries roles
    and an e-mail address of its own. *)
Definition aliceFirebase : Firebase :=
  let alice := {| uid := VStr "u1"; email := VStr "alice@example.com";
                  emailVerified := VBool true; displayName := VStr "Alice";
                  photoURL := VNull; creationTime := VStr "t0";
                  lastSignInTime := VStr "t1" |} in
  {| fb_setPersistence := Returned tt;
     fb_signInWithEmailAndPassword := fun _ _ => Returned alice;
     fb_createUserWithEmailAndPassword := fun _ _ => Returned alice;
     fb_updateProfile := fun u _ _ => Returned u;
     fb_signOut := Returned tt;
     fb_sendEmailVerification := fun _ => Returned tt;
     fb_sendPasswordResetEmail := fun _ => Returned tt;
     fb_reauthenticateWithCredential := fun _ _ _ => Returned tt;
     fb_updatePassword := fun _ _ => Returned tt;
     fb_currentUser := Some alice;
     primary_get := fun _ => Returned (Some [("roles", VStr "admin");
                                             ("email", VStr "alice@work.example")]);
     primary_add := fun _ => Returned tt;
     primary_update := fun _ _ => Returned tt;
     nowISO := "2025-01-01T00:00:00.000Z" |}.



(** * Properties *)

(** Appending to a literal prefix computes under [simpl]. *)
#[local] Arguments String.append !s1 s2 : simpl nomatch.

Example toCamelCase_kebab : toCamelCase "client-submissions" = "clientSubmissions".
Proof. reflexivity. Qed.

Example toCamelCase_spaces : toCamelCase "  Client   Submissions " = "clientSubmissions".
Proof. reflexivity. Qed.

Example toCamelCase_leading_dash : toCamelCase "-foo_bar" = "FooBar".
Proof. reflexivity. Qed.

Example capitalize_keeps_tail : capitalize "clientSubmissions" = "ClientSubmissions".
Proof. reflexivity. Qed.

Example toCamel_kebab : toCamel "app-store--x-" = "appStore-X-".
Proof. reflexivity. Qed.

Example splitRuns_trailing :
  Js.splitRuns isWordSeparator "a--b_" = ["a"; "b"; EmptyString].
Proof. reflexivity. Qed.

(** ** Strings *)

Section StringFacts.

Lemma append_assoc (a b c : string) : (a +:+ b) +:+ c = a +:+ (b +:+ c).
Proof. induction a as [|x a IH]; simpl; [reflexivity | now rewrite IH]. Qed.

Lemma append_empty_r (a : string) : a +:+ EmptyString = a.
Proof. induction a as [|x a IH]; simpl; [reflexivity | now rewrite IH]. Qed.

Lemma list_of_append (a b : string) :
  list_ascii_of_string (a +:+ b) = list_ascii_of_string a ++ list_ascii_of_string b.
Proof. induction a as [|x a IH]; simpl; [reflexivity | now rewrite IH]. Qed.

Lemma list_of_string_inj (a b : string) :
  list_ascii_of_string a = list_ascii_of_string b -> a = b.
Proof.
  intros H.
  rewrite <- (string_of_list_ascii_of_string a), <- (string_of_list_ascii_of_string b).
  now rewrite H.
Qed.

Lemma append_inv_tail (a b c : string) : a +:+ c = b +:+ c -> a = b.
Proof.
  intros H. apply list_of_string_inj.
  apply (f_equal list_ascii_of_string) in H.
  rewrite !list_of_append in H.
  now apply app_inv_tail in H.
Qed.

Lemma append_inv_head (a b c : string) : a +:+ b = a +:+ c -> b = c.
Proof. induction a as [|x a IH]; simpl; intros H; [assumption | injection H; auto]. Qed.

Lemma allChars_append (p : ascii -> bool) (a b : string) :
  allChars p (a +:+ b) = allChars p a && allChars p b.
Proof.
  induction a as [|x a IH]; simpl; [reflexivity |].
  now rewrite IH, andb_assoc.
Qed.

Lemma allChars_impl (p q : ascii -> bool) (s : string) :
  (forall c, p c = true -> q c = true) -> allChars p s = true -> allChars q s = true.
Proof.
  intros Hpq. induction s as [|x s IH]; simpl; [reflexivity |].
  intros [Hx Hs]%andb_true_iff. rewrite (Hpq _ Hx). simpl. auto.
Qed.

Lemma allChars_mapChars (p : ascii -> bool) (f : ascii -> ascii) (s : string) :
  allChars p (Js.mapChars f s) = allChars (fun c => p (f c)) s.
Proof. induction s as [|x s IH]; simpl; [reflexivity | now rewrite IH]. Qed.

Lemma prefix_append (a b : string) : String.prefix a (a +:+ b) = true.
Proof.
  induction a as [|x a IH]; simpl; [now destruct b |].
  destruct (ascii_dec x x); [assumption | contradiction].
Qed.

Lemma includes_empty_or_prefix (s sub : string) :
  String.prefix sub s = true -> Js.includes s sub = true.
Proof. intros H. destruct s; simpl in *; rewrite H; reflexivity. Qed.

Lemma includes_append (a b c : string) : Js.includes (a +:+ b +:+ c) b = true.
Proof.
  induction a as [|x a IH]; simpl.
  - apply includes_empty_or_prefix, prefix_append.
  - rewrite IH. apply orb_true_r.
Qed.

End StringFacts.

(** ** Naming utilities *)

Lemma trimStart_no_space (s : string) :
  allChars notSpace s = true -> Js.trimStart s = s.
Proof.
  destruct s as [|c r]; simpl; [reflexivity |].
  unfold notSpace at 1; intros [Hc _]%andb_true_iff. apply negb_true_iff in Hc. now rewrite Hc.
Qed.

Lemma trimEnd_no_space (s : string) :
  allChars notSpace s = true -> Js.trimEnd s = s.
Proof.
  induction s as [|c r IH]; simpl; [reflexivity |].
  unfold notSpace at 1. intros [Hc Hr]%andb_true_iff. apply negb_true_iff in Hc.
  rewrite (IH Hr), Hc. now destruct r.
Qed.

Lemma trim_no_space (s : string) : allChars notSpace s = true -> Js.trim s = s.
Proof.
  intros H. unfold Js.trim. rewrite (trimStart_no_space s H). now apply trimEnd_no_space.
Qed.

Lemma separator_of_space (c : ascii) : notSeparator c = true -> notSpace c = true.
Proof.
  unfold notSeparator, notSpace, isWordSeparator.
  rewrite !negb_true_iff, !orb_false_iff. tauto.
Qed.

Lemma upperChar_not_space (c : ascii) :
  notSpace c = true -> notSpace (Js.upperChar c) = true.
Proof.
  destruct c as [[] [] [] [] [] [] [] []]; vm_compute; auto.
Qed.

Lemma splitRuns_no_separator (sep : ascii -> bool) (s : string) :
  List.Forall (fun t => allChars (fun c => negb (sep c)) t = true) (Js.splitRuns sep s).
Proof.
  induction s as [|c r IH]; simpl.
  - repeat constructor.
  - destruct (sep c) eqn:Hc.
    + destruct r as [|d r']; [constructor; [reflexivity | exact IH] |].
      destruct (sep d); [exact IH | constructor; [reflexivity | exact IH]].
    + destruct (Js.splitRuns sep r) as [|t ts]; [repeat constructor; simpl; now rewrite Hc |].
      inversion IH as [|? ? Ht Hts]; subst.
      constructor; [simpl; now rewrite Hc | exact Hts].
Qed.

Lemma capitalized_no_space (w : string) :
  allChars notSpace w = true ->
  allChars notSpace (Js.toUpperCase (Js.charAt0 w) +:+ Js.slice1 w) = true.
Proof.
  destruct w as [|c r]; simpl; [reflexivity |].
  intros [Hc Hr]%andb_true_iff.
  now rewrite (upperChar_not_space c Hc).
Qed.

Lemma joinEmpty_no_space (l : list string) :
  Forall (fun t => allChars notSpace t = true) l ->
  allChars notSpace (Js.joinEmpty l) = true.
Proof.
  unfold Js.joinEmpty.
  induction 1 as [|t l Ht Hl IH]; simpl; [reflexivity |].
  destruct l as [|u l']; [assumption |].
  rewrite !allChars_append, Ht. simpl. exact IH.
Qed.

Lemma toCamelCase_no_space (str : string) :
  allChars notSpace (toCamelCase str) = true.
Proof.
  unfold toCamelCase. apply joinEmpty_no_space.
  pose proof (splitRuns_no_separator isWordSeparator
                (Js.toLowerCase (Js.trim str))) as Htokens.
  destruct (Js.splitRuns isWordSeparator (Js.toLowerCase (Js.trim str))) as [|w ws];
    [constructor |].
  inversion Htokens as [|? ? Hw Hws]; subst. simpl. constructor.
  - eapply allChars_impl; [apply separator_of_space | exact Hw].
  - apply List.Forall_forall. intros t Ht.
    apply list_elem_of_In, elem_of_lookup_imap in Ht.
    destruct Ht as (i & w' & -> & Hi).
    simpl. apply capitalized_no_space.
    eapply allChars_impl; [apply separator_of_space |].
    eapply (proj1 (List.Forall_forall _ _) Hws), list_elem_of_In, list_elem_of_lookup_2, Hi.
Qed.

(** The driver's [.trim()] after [toCamelCase] changes nothing. *)
Lemma driverCollectionName_eq (c : string) : driverCollectionName c = toCamelCase c.
Proof. apply trim_no_space, toCamelCase_no_space. Qed.

(** C9.  The naming utilities are defined on the empty string and map it to
    itself: [capitalize("")] is [""] and [toCamelCase("")] is [""]; no case
    of either function throws. *)
Theorem naming_utilities_on_empty_string :
  capitalize EmptyString = EmptyString /\ toCamelCase EmptyString = EmptyString.
Proof. split; reflexivity. Qed.

(** ** The descriptor table *)

(** C4.  The table holds exactly thirteen descriptors, in the order
    fetchInitialPage, fetchNextPage, applyFilters, changeSorting, add, get,
    getWhere, update, search, clearSearch, remove (delete), assignRoles,
    revokeRoles, and for every suffix [S] their member names are
    fetchInitialPage+S, fetchNextPage+S, apply+S+Filters, change+S+Sorting,
    add+S, get+S, getWhere+S, update+S, search+S, clear+S+Search, delete+S,
    assign+S+Roles and revoke+S+Roles. *)
Theorem descriptor_table_names :
  length actionDescriptors = 13
  /\ map key actionDescriptors =
       ["fetchInitialPage"; "fetchNextPage"; "applyFilters"; "changeSorting"; "add";
        "get"; "getWhere"; "update"; "search"; "clearSearch"; "remove";
        "assignRoles"; "revokeRoles"]
  /\ forall S : string,
       map (fun d => exportName d S) actionDescriptors =
         ["fetchInitialPage" +:+ S; "fetchNextPage" +:+ S; "apply" +:+ S +:+ "Filters";
          "change" +:+ S +:+ "Sorting"; "add" +:+ S; "get" +:+ S; "getWhere" +:+ S;
          "update" +:+ S; "search" +:+ S; "clear" +:+ S +:+ "Search"; "delete" +:+ S;
          "assign" +:+ S +:+ "Roles"; "revoke" +:+ S +:+ "Roles"].
Proof. repeat split. Qed.

(** ** The suffix of a generated module *)

(** C2, as the claim states it, fails: handed the valid name
    [client-submissions] the composer derives the suffix
    [Client-submissions], not [capitalize(toCamelCase(name))], and it rejects
    [Client Submissions] altogether. *)
Lemma composer_suffix_keeps_separators :
  validCollectionName "client-submissions" = true
  /\ moduleSuffix "client-submissions" = "Client-submissions"
  /\ moduleSuffix "client-submissions" <> capitalize (toCamelCase "client-submissions")
  /\ validCollectionName "Client Submissions" = false.
Proof. repeat split. intros H. discriminate H. Qed.

(** C2, amended.  The composer derives the suffix as [capitalize] of the
    name it is given, and every member name from that suffix; the driver
    gives it [toCamelCase] of the raw input, so for a collection of a run the
    suffix is [capitalize(toCamelCase(raw))] whatever the casing and
    separators of the input: [client-submissions], [client_submissions] and
    [Client Submissions] all give [ClientSubmissions] and the same member
    names. *)
Theorem driver_suffix_is_capitalized_camel_case :
  (forall raw : string,
     moduleSuffix (driverCollectionName raw) = capitalize (toCamelCase raw)
     /\ memberNames (driverCollectionName raw) =
          map (fun d => exportName d (capitalize (toCamelCase raw))) actionDescriptors)
  /\ moduleSuffix (driverCollectionName "client-submissions") = "ClientSubmissions"
  /\ moduleSuffix (driverCollectionName "client_submissions") = "ClientSubmissions"
  /\ moduleSuffix (driverCollectionName "Client Submissions") = "ClientSubmissions"
  /\ memberNames (driverCollectionName "client_submissions") =
       memberNames (driverCollectionName "client-submissions")
  /\ memberNames (driverCollectionName "Client Submissions") =
       memberNames (driverCollectionName "client-submissions").
Proof.
  split; [| repeat split].
  intros raw. unfold memberNames, moduleSuffix.
  rewrite driverCollectionName_eq. split; reflexivity.
Qed.

(** ** The imports of the index file *)

Lemma actionImportLine_render (c : string) :
  actionImportLine c = renderImport (actionImport c).
Proof.
  unfold actionImportLine, renderImport, actionImport. simpl.
  now rewrite !append_assoc.
Qed.

Lemma use_actions_inj (a b : string) :
  "use" +:+ a +:+ "Actions" = "use" +:+ b +:+ "Actions" <-> a = b.
Proof.
  split; [| now intros ->].
  intros H. apply append_inv_head in H. now apply append_inv_tail in H.
Qed.

(** C10, as the claim states it, fails for one collection name: the driver
    turns the input [firestore-collection] into [firestoreCollection], whose
    module exports [useFirestoreCollectionActions], the very name the import
    line asks for. *)
Lemma import_names_export_of_firestoreCollection :
  driverCollectionName "firestore-collection" = "firestoreCollection"
  /\ validCollectionName "firestoreCollection" = true
  /\ imported (actionImport "firestoreCollection") =
       exportedFunctionName "firestoreCollection".
Proof. repeat split. Qed.

(** C10, amended.  For every collection [c] the import line of the index
    file asks './actions/<c>.js' for the export
    [useFirestoreCollectionActions], aliased to use<Capitalized(c)>Actions;
    that is the function the per-collection composer exports there,
    use<Suffix>Actions, exactly when the capitalised name is
    [FirestoreCollection], and never otherwise.  The import block of a run is
    these lines, one per collection, in order. *)
Theorem index_import_names_factory (c : string) :
  actionImportLine c =
    renderImport {| imported := "useFirestoreCollectionActions";
                    localName := "use" +:+ capitalize c +:+ "Actions";
                    source := "./actions/" +:+ c +:+ ".js" |}
  /\ (imported (actionImport c) = exportedFunctionName c
      <-> capitalize c = "FirestoreCollection")
  /\ (forall collections : list string,
        actionImports collections =
          String.concat nl (map (fun col => renderImport (actionImport col)) collections)).
Proof.
  split; [apply actionImportLine_render |].
  split; [| intros collections; unfold actionImports; f_equal;
            apply map_ext; intros col; apply actionImportLine_render].
  unfold exportedFunctionName, moduleSuffix.
  change (imported (actionImport c)) with ("use" +:+ "FirestoreCollection" +:+ "Actions").
  rewrite use_actions_inj. split; congruence.
Qed.

(** ** The documentation of the members *)

Lemma replaceChar_append (c : ascii) (by_ a b : string) :
  Js.replaceChar c by_ (a +:+ b) = Js.replaceChar c by_ a +:+ Js.replaceChar c by_ b.
Proof.
  induction a as [|x a IH]; simpl; [reflexivity |].
  destruct (Ascii.eqb c x); rewrite IH; [now rewrite append_assoc | reflexivity].
Qed.

Lemma replaceChar_absent (by_ a : string) :
  allChars notNewline a = true -> Js.replaceChar "010"%char by_ a = a.
Proof.
  induction a as [|x a IH]; [reflexivity |].
  cbn [allChars Js.replaceChar]. intros [Hx Ha]%andb_true_iff.
  unfold notNewline in Hx. apply negb_true_iff in Hx. now rewrite Hx, IH.
Qed.

Lemma includes_skip (x y a : string) :
  Js.includes y a = true -> Js.includes (x +:+ y) a = true.
Proof.
  intros H. induction x as [|c x IH]; simpl; [assumption |].
  rewrite IH. apply orb_true_r.
Qed.

Lemma includes_here (a y : string) : Js.includes (a +:+ y) a = true.
Proof. apply includes_empty_or_prefix, prefix_append. Qed.

(** A documentation block whose summary embeds [a] still shows [a] after
    the composer has re-indented it. *)
Lemma docBlock_mentions (by_ pre a post forwardedTo : string) :
  allChars notNewline a = true ->
  Js.includes (Js.replaceChar "010"%char by_ (docBlock (pre +:+ a +:+ post) forwardedTo)) a
  = true.
Proof.
  intros Ha. unfold docBlock.
  rewrite !replaceChar_append, (replaceChar_absent by_ a Ha), !append_assoc.
  do 4 apply includes_skip. apply includes_here.
Qed.

Lemma nameChar_not_newline (c : ascii) : isNameChar c = true -> notNewline c = true.
Proof. destruct c as [[] [] [] [] [] [] [] []]; vm_compute; auto. Qed.

Lemma upperChar_not_newline (c : ascii) :
  notNewline c = true -> notNewline (Js.upperChar c) = true.
Proof. destruct c as [[] [] [] [] [] [] [] []]; vm_compute; auto. Qed.

Lemma lowerChar_not_newline (c : ascii) :
  notNewline c = true -> notNewline (Js.lowerChar c) = true.
Proof. destruct c as [[] [] [] [] [] [] [] []]; vm_compute; auto. Qed.

Lemma letter_is_nameChar (c : ascii) : isLetter c = true -> isNameChar c = true.
Proof. unfold isNameChar. now intros ->. Qed.

Lemma valid_suffix_one_line (c : string) :
  validCollectionName c = true -> allChars notNewline (moduleSuffix c) = true.
Proof.
  destruct c as [|x r]; [discriminate |]. simpl.
  intros [[Hx Hr]%andb_true_iff _]%andb_true_iff.
  rewrite (upperChar_not_newline x (nameChar_not_newline x (letter_is_nameChar x Hx))).
  simpl. eapply allChars_impl; [apply nameChar_not_newline | exact Hr].
Qed.

Lemma toLowerCase_one_line (s : string) :
  allChars notNewline s = true -> allChars notNewline (Js.toLowerCase s) = true.
Proof.
  intros H. unfold Js.toLowerCase. rewrite allChars_mapChars.
  eapply allChars_impl; [| exact H]. apply lowerChar_not_newline.
Qed.

(** C5, as the claim states it, fails: for the collection [products] the
    documentation of the first descriptor reads "... first page of Products
    ...", and nowhere holds the collection's own name. *)
Lemma documentation_does_not_name_collection :
  validCollectionName "products" = true
  /\ ~ Forall (fun d => Js.includes (memberDoc (moduleSuffix "products") d) "products" = true)
         actionDescriptors.
Proof.
  split; [reflexivity |].
  intros H. inversion H as [|d ds Hd _]. vm_compute in Hd. discriminate Hd.
Qed.

(** C5, amended.  For every valid collection the documentation emitted for
    a descriptor is derived from the capitalised suffix, not from the name:
    the text of each descriptor other than [get] and [getWhere] contains the
    suffix (for [assignRoles] and [revokeRoles] the lower-cased suffix), and
    the text of [get] and [getWhere] is the same for every collection. *)
Theorem documentation_is_derived_from_suffix (c : string) :
  validCollectionName c = true ->
  Forall (fun d =>
            match docMention d (moduleSuffix c) with
            | Some mention => Js.includes (memberDoc (moduleSuffix c) d) mention = true
            | None => forall name : string, memberDoc name d = memberDoc (moduleSuffix c) d
            end)
         actionDescriptors.
Proof.
  intros Hvalid.
  pose proof (valid_suffix_one_line c Hvalid) as Hs.
  pose proof (toLowerCase_one_line _ Hs) as Hl.
  unfold actionDescriptors.
  repeat (apply Forall_cons; split); try apply Forall_nil;
    lazy [docMention key String.eqb Ascii.eqb Bool.eqb orb];
    unfold memberDoc; cbn [jsdoc];
    first [ now apply docBlock_mentions | reflexivity ].
Qed.

Lemma documentation_is_derived_from_suffix_witness :
  Forall (fun d =>
            match docMention d (moduleSuffix "products") with
            | Some mention =>
                Js.includes (memberDoc (moduleSuffix "products") d) mention = true
            | None =>
                forall name : string, memberDoc name d = memberDoc (moduleSuffix "products") d
            end)
         actionDescriptors.
Proof. apply (documentation_is_derived_from_suffix "products"). reflexivity. Defined.

(** ** Role members *)

(** The composer has no auth parameter and walks the whole table: whatever
    the collection, its module has one [assign<Suffix>Roles] and one
    [revoke<Suffix>Roles]. *)
Lemma role_members_in_every_module (c : string) :
  memberCount ("assign" +:+ moduleSuffix c +:+ "Roles") c = 1
  /\ memberCount ("revoke" +:+ moduleSuffix c +:+ "Roles") c = 1.
Proof.
  unfold memberCount, memberNames. simpl.
  now rewrite !String.eqb_refl.
Qed.

(** C1 at a collection that is not an auth collection: the driver does not
    classify [products] as one, and still the module composed for it has the
    members [assignProductsRoles] and [revokeProductsRoles], each once, with
    their forwarding wrappers in the module text. *)
Theorem role_members_emitted_for_non_auth_collection :
  isAuthCollection "products" = false
  /\ validCollectionName "products" = true
  /\ memberCount "assignProductsRoles" "products" = 1
  /\ memberCount "revokeProductsRoles" "products" = 1
  /\ Js.occurrences "assignProductsRoles(...args) {" (moduleContent "products") = 1
  /\ Js.occurrences "revokeProductsRoles(...args) {" (moduleContent "products") = 1
  /\ Js.occurrences "return getActions().assignRoles(...args);" (moduleContent "products") = 1
  /\ Js.occurrences "return getActions().revokeRoles(...args);" (moduleContent "products") = 1.
Proof. repeat split; vm_compute; reflexivity. Qed.

(** ** Running the composer *)

Lemma generate_invalid (baseDir n : string) (fs : FileSystem) :
  validCollectionName n = false ->
  generateCollectionActionModule baseDir n fs = (fs, Thrown (invalidNameError n)).
Proof.
  intros H. unfold generateCollectionActionModule, tryCatch.
  rewrite H. reflexivity.
Qed.

(** With a valid name the composer ends in one of three ways: the directory
    cannot be made, the file cannot be written, or the module is on disk. *)
Lemma generate_valid (baseDir n : string) (fs : FileSystem) :
  validCollectionName n = true ->
  let text := Js.trim (moduleContent n) +:+ nl in
  let fs1 :=
    if existsSync (actionsDirOf baseDir) fs then fs
    else {| dirs := list_to_set (pathAncestors (actionsDirOf baseDir)) ∪ dirs fs;
            files := files fs; denied := denied fs |} in
  generateCollectionActionModule baseDir n fs =
    if negb (existsSync (actionsDirOf baseDir) fs)
       && bool_decide (actionsDirOf baseDir ∈ denied fs)
    then (fs, Thrown ("[Action Generator] " +:+ n +:+ " failed: " +:+
                      "EACCES: permission denied, mkdir '" +:+ actionsDirOf baseDir +:+ "'"))
    else if bool_decide (modulePathOf baseDir n ∈ denied fs)
    then (fs1, Thrown ("[Action Generator] " +:+ n +:+ " failed: " +:+
                       "Failed to write file: " +:+ modulePathOf baseDir n +:+ nl +:+
                       "EACCES: permission denied, open '" +:+ modulePathOf baseDir n +:+ "'"))
    else ({| dirs := dirs fs1;
             files := <[modulePathOf baseDir n := text]> (files fs1);
             denied := denied fs1 |},
          Returned {| success := true; path := modulePathOf baseDir n |}).
Proof.
  intros H. cbv zeta.
  unfold generateCollectionActionModule, tryCatch, bind, writeFile, tryCatch,
    writeFileSync, mkdirSync, ret, throw.
  rewrite H. cbn [negb].
  fold (actionsDirOf baseDir). fold (modulePathOf baseDir n).
  destruct (existsSync (actionsDirOf baseDir) fs); cbn [negb andb].
  - destruct (bool_decide (modulePathOf baseDir n ∈ denied fs)); reflexivity.
  - destruct (bool_decide (actionsDirOf baseDir ∈ denied fs)); [reflexivity |].
    cbn [denied files dirs].
    destruct (bool_decide (modulePathOf baseDir n ∈ denied fs)); reflexivity.
Qed.

Lemma generate_returned (baseDir n : string) (fs fs' : FileSystem) (r : GenerationResult) :
  generateCollectionActionModule baseDir n fs = (fs', Returned r) ->
  validCollectionName n = true
  /\ r = {| success := true; path := modulePathOf baseDir n |}
  /\ files fs' = <[modulePathOf baseDir n := Js.trim (moduleContent n) +:+ nl]> (files fs).
Proof.
  destruct (validCollectionName n) eqn:Hv.
  - rewrite (generate_valid baseDir n fs Hv).
    destruct (negb _ && _); [discriminate |].
    destruct (bool_decide (modulePathOf baseDir n ∈ denied fs)); [discriminate |].
    intros [= <- <-]. repeat split.
    now destruct (existsSync (actionsDirOf baseDir) fs).
  - rewrite (generate_invalid baseDir n fs Hv). discriminate.
Qed.

(** C6, as the claim states it, fails: a name of sixty-five letters matches
    the pattern [^[A-Za-z][A-Za-z0-9_-]*$], and the composer rejects it. *)
Lemma long_name_matches_pattern_and_is_rejected :
  let n := "aaaaaaaaaaaaaaaaaaaaaaaaaaaaaaaaaaaaaaaaaaaaaaaaaaaaaaaaaaaaaaaaa" in
  String.length n = 65
  /\ matchesSpecPattern n = true
  /\ generateCollectionActionModule "stores/shop" n emptyFileSystem =
       (emptyFileSystem, Thrown (invalidNameError n)).
Proof. repeat split. Qed.

(** C6, amended.  The composer accepts a name when it matches
    [^[A-Za-z][A-Za-z0-9_-]*$] and is at most 64 characters long.  It fails
    with the invalid-name error, which names the collection, if and only if
    the name is not accepted, and then it has touched nothing on the file
    system.  With an accepted name it fails only when the file system refuses
    the directory or the file: when neither path is refused it returns
    success and the module is on disk. *)
Theorem composition_fails_iff_name_rejected (baseDir n : string) (fs : FileSystem) :
  validCollectionName n = matchesSpecPattern n && (String.length n <=? 64)
  /\ (validCollectionName n = false
      <-> generateCollectionActionModule baseDir n fs = (fs, Thrown (invalidNameError n)))
  /\ (validCollectionName n = true ->
      actionsDirOf baseDir ∉ denied fs ->
      modulePathOf baseDir n ∉ denied fs ->
      exists fs' : FileSystem,
        generateCollectionActionModule baseDir n fs =
          (fs', Returned {| success := true; path := modulePathOf baseDir n |})
        /\ files fs' !! modulePathOf baseDir n = Some (Js.trim (moduleContent n) +:+ nl)).
Proof.
  split; [| split].
  - destruct n as [|c r]; reflexivity.
  - split; [apply generate_invalid |].
    destruct (validCollectionName n) eqn:Hv; [| reflexivity].
    rewrite (generate_valid baseDir n fs Hv). unfold invalidNameError.
    destruct (negb _ && _).
    + intros [= H]. apply append_inv_head in H. discriminate H.
    + destruct (bool_decide (modulePathOf baseDir n ∈ denied fs)); [| discriminate].
      intros [= _ H]. apply append_inv_head in H. discriminate H.
  - intros Hv Hdir Hfile.
    rewrite (generate_valid baseDir n fs Hv).
    rewrite (bool_decide_eq_false_2 _ Hdir), (bool_decide_eq_false_2 _ Hfile), andb_false_r.
    eexists. split; [reflexivity |]. cbn [files]. apply lookup_insert_eq.
Qed.

Lemma composition_fails_iff_name_rejected_witness :
  exists fs' : FileSystem,
    generateCollectionActionModule "stores/shop" "products" emptyFileSystem =
      (fs', Returned {| success := true; path := "stores/shop/actions/products.js" |})
    /\ files fs' !! "stores/shop/actions/products.js"
       = Some (Js.trim (moduleContent "products") +:+ nl).
Proof.
  apply (composition_fails_iff_name_rejected "stores/shop" "products" emptyFileSystem).
  - reflexivity.
  - apply not_elem_of_empty.
  - apply not_elem_of_empty.
Defined.

(** ** Determinism of the composer *)

(** C8.  What the composer writes is a function of the collection name
    alone: whatever the base directory and whatever is on the file system,
    a run that succeeds leaves the same text, [moduleContent] of the name
    trimmed and ended by one newline, in the file it reports; so a second run
    on what the first left writes byte for byte the same module. *)
Theorem composer_output_depends_on_name_only
    (baseDir1 baseDir2 n : string) (fs1 fs2 fs1' fs2' : FileSystem)
    (r1 r2 : GenerationResult) :
  generateCollectionActionModule baseDir1 n fs1 = (fs1', Returned r1) ->
  generateCollectionActionModule baseDir2 n fs2 = (fs2', Returned r2) ->
  files fs1' !! path r1 = Some (Js.trim (moduleContent n) +:+ nl)
  /\ files fs2' !! path r2 = files fs1' !! path r1.
Proof.
  intros (_ & -> & ->)%generate_returned (_ & -> & ->)%generate_returned.
  cbn [path]. now rewrite !lookup_insert_eq.
Qed.

Lemma composer_output_depends_on_name_only_witness :
  let target := "stores/shop/actions/products.js" in
  let run1 := generateCollectionActionModule "stores/shop" "products" emptyFileSystem in
  let run2 := generateCollectionActionModule "stores/shop" "products" run1.1 in
  files run1.1 !! target = Some (Js.trim (moduleContent "products") +:+ nl)
  /\ files run2.1 !! target = files run1.1 !! target.
Proof.
  intros target run1 run2.
  apply (composer_output_depends_on_name_only
           "stores/shop" "stores/shop" "products" emptyFileSystem run1.1 run1.1 run2.1
           {| success := true; path := target |} {| success := true; path := target |}).
  - subst run1.
    rewrite (generate_valid "stores/shop" "products" emptyFileSystem eq_refl).
    reflexivity.
  - subst run2.
    rewrite (generate_valid "stores/shop" "products" run1.1 eq_refl).
    subst run1.
    rewrite (generate_valid "stores/shop" "products" emptyFileSystem eq_refl).
    reflexivity.
Defined.

(** ** The generated authentication flows *)

Section FlowFacts.

Context {A B : Type}.







End FlowFacts.
















(** *** Session restore *)

Lemma fetchUser_uninitialized (s : AuthState) :
  authInitialized (store s) = false ->
  fetchUser s =
    ({| store := store s; subscriptions := S (subscriptions s); writes := writes s |},
     Returned AwaitingListener).
Proof. intros H. unfold fetchUser, bind, gets. now rewrite H. Qed.

Lemma fetchUser_initialized (s : AuthState) :
  authInitialized (store s) = true ->
  fetchUser s = (s, Returned (ResolvedWith (currentUser (store s)))).
Proof. intros H. unfold fetchUser, bind, gets. now rewrite H. Qed.

(** Once a listener has run, the flow is resolved: [authInitialized] is set,
    and the listener resolved its promise with the current user. *)
Lemma authListener_resolves (fb : Firebase) (u : option FirebaseUser) (s : AuthState) :
  exists s' : AuthState,
    authListener fb u s = (s', Returned (currentUser (store s')))
    /\ authInitialized (store s') = true
    /\ subscriptions s' = subscriptions s.
Proof.
  unfold authListener, bind, tryCatchFinally, tryCatch, await, gets.
  destruct u as [u |]; [destruct (primary_get fb (uid u)) as [[p |] | e] |];
    simpl;
    match goal with
    | |- exists s', (?x, _) = _ /\ _ => exists x; repeat split
    end.
Qed.

(** After a listener has run, any number of calls neither subscribe again
    nor change what they return. *)
Lemma fetchUser_resolved_is_stable (fb : Firebase) (u : option FirebaseUser) (s : AuthState) :
  let s' := (authListener fb u s).1 in
  fetchUser s' = (s', Returned (ResolvedWith (currentUser (store s')))).
Proof.
  intros s'. apply fetchUser_initialized. subst s'.
  destruct (authListener_resolves fb u s) as (s1 & -> & H & _). exact H.
Qed.

(** C3 at two calls in a row on a store whose listener has not run yet: the
    first call subscribes and leaves [authInitialized] unset, so the second
    call subscribes as well; two listeners are registered and neither call
    has a value to return. *)
Theorem fetchUser_twice_while_listening_subscribes_twice :
  authInitialized (store freshAuthState) = false
  /\ (fetchUser freshAuthState).2 = Returned AwaitingListener
  /\ subscriptions (fetchUser freshAuthState).1 = 1
  /\ authInitialized (store (fetchUser freshAuthState).1) = false
  /\ (fetchUser (fetchUser freshAuthState).1).2 = Returned AwaitingListener
  /\ subscriptions (fetchUser (fetchUser freshAuthState).1).1 = 2.
Proof. repeat split. Qed.






(** The flows at work on a fresh store: a failed login leaves the classified
    message in [error] and [loading] reset, and a logout fails on the missing
    [emailVerificationSent] ref after it has cleared the current user. *)
Example login_unknown_user :
  let s := (login signedOutFirebase "a@b.c" "pw" freshAuthState).1 in
  writes s = [WLoading true; WError VNull;
              WError (VStr "No user found with this email."); WLoading false]
  /\ loading (store s) = false.
Proof. split; reflexivity. Qed.

Example logout_on_generated_state :
  let run := logout signedOutFirebase freshAuthState in
  writes run.1 = [WLoading true; WError VNull; WCurrentUser VNull;
                  WError (VStr "Cannot set properties of undefined (setting 'value')");
                  WLoading false]
  /\ run.2 = Thrown (mkError (Some "auth/logout-failed") (Some "Logout failed")
                       (Some (newError "Cannot set properties of undefined (setting 'value')"))).
Proof. split; reflexivity. Qed.

(** * Further properties of the helpers, the composer, the driver and the
      generated flows *)

(** ** helperF.js *)

Lemma upperChar_not_separator (c : ascii) :
  notSeparator c = true -> notSeparator (Js.upperChar c) = true.
Proof. destruct c as [[] [] [] [] [] [] [] []]; vm_compute; auto. Qed.

Lemma lowerChar_not_separator (c : ascii) :
  notSeparator c = true -> notSeparator (Js.lowerChar c) = true.
Proof. destruct c as [[] [] [] [] [] [] [] []]; vm_compute; auto. Qed.

Lemma upperChar_not_comma (c : ascii) : notComma c = true -> notComma (Js.upperChar c) = true.
Proof. destruct c as [[] [] [] [] [] [] [] []]; vm_compute; auto. Qed.

Lemma lowerChar_not_comma (c : ascii) : notComma c = true -> notComma (Js.lowerChar c) = true.
Proof. destruct c as [[] [] [] [] [] [] [] []]; vm_compute; auto. Qed.

Lemma upperChar_idempotent (c : ascii) : Js.upperChar (Js.upperChar c) = Js.upperChar c.
Proof. destruct c as [[] [] [] [] [] [] [] []]; reflexivity. Qed.

Lemma lowerChar_upperChar (c : ascii) : Js.lowerChar (Js.upperChar c) = Js.lowerChar c.
Proof. destruct c as [[] [] [] [] [] [] [] []]; reflexivity. Qed.

Lemma upperChar_never_lower (c : ascii) : Js.isLower (Js.upperChar c) = false.
Proof. destruct c as [[] [] [] [] [] [] [] []]; reflexivity. Qed.

Section CharsOfCamelCase.

Variable p : ascii -> bool.
Hypothesis p_upper : forall c, p c = true -> p (Js.upperChar c) = true.

Lemma capitalized_all (w : string) :
  allChars p w = true ->
  allChars p (Js.toUpperCase (Js.charAt0 w) +:+ Js.slice1 w) = true.
Proof.
  destruct w as [|c r]; simpl; [reflexivity |].
  intros [Hc Hr]%andb_true_iff. now rewrite (p_upper c Hc).
Qed.

Lemma joinEmpty_all (l : list string) :
  List.Forall (fun t => allChars p t = true) l -> allChars p (Js.joinEmpty l) = true.
Proof.
  unfold Js.joinEmpty.
  induction 1 as [|t l Ht Hl IH]; simpl; [reflexivity |].
  destruct l as [|u l']; [assumption |].
  rewrite !allChars_append, Ht. simpl. exact IH.
Qed.

(** The characters of [toCamelCase str] are those of its tokens, some of
    them upper-cased. *)
Lemma toCamelCase_chars (str : string) :
  List.Forall (fun t => allChars p t = true)
    (Js.splitRuns isWordSeparator (Js.toLowerCase (Js.trim str))) ->
  allChars p (toCamelCase str) = true.
Proof.
  intros Htokens. unfold toCamelCase. apply joinEmpty_all.
  destruct (Js.splitRuns isWordSeparator (Js.toLowerCase (Js.trim str))) as [|w ws];
    [constructor |].
  inversion Htokens as [|? ? Hw Hws]; subst. simpl. constructor; [exact Hw |].
  apply List.Forall_forall. intros t Ht.
  apply list_elem_of_In, elem_of_lookup_imap in Ht.
  destruct Ht as (i & w' & -> & Hi).
  simpl. apply capitalized_all.
  eapply (proj1 (List.Forall_forall _ _) Hws), list_elem_of_In, list_elem_of_lookup_2, Hi.
Qed.

Lemma allChars_trimStart (s : string) :
  allChars p s = true -> allChars p (Js.trimStart s) = true.
Proof.
  induction s as [|c r IH]; [reflexivity |].
  intros H. cbn [Js.trimStart]. destruct (Js.isSpace c); [| exact H].
  simpl in H. apply andb_true_iff in H as [_ Hr]. auto.
Qed.

Lemma allChars_trimEnd (s : string) :
  allChars p s = true -> allChars p (Js.trimEnd s) = true.
Proof.
  induction s as [|c r IH]; [reflexivity |].
  cbn [allChars Js.trimEnd]. intros [Hc Hr]%andb_true_iff.
  specialize (IH Hr). destruct (Js.trimEnd r) as [|x y].
  - destruct (Js.isSpace c); simpl; [reflexivity | now rewrite Hc].
  - cbn [allChars]. now rewrite Hc.
Qed.

Lemma splitRuns_all (sep : ascii -> bool) (s : string) :
  allChars p s = true ->
  List.Forall (fun t => allChars p t = true) (Js.splitRuns sep s).
Proof.
  induction s as [|c r IH]; [repeat constructor |].
  cbn [allChars]. intros [Hc Hr]%andb_true_iff. specialize (IH Hr).
  cbn [Js.splitRuns]. destruct (sep c).
  - destruct r as [|d r']; [constructor; [reflexivity | exact IH] |].
    destruct (sep d); [exact IH | constructor; [reflexivity | exact IH]].
  - destruct (Js.splitRuns sep r) as [|t ts]; [repeat constructor; simpl; now rewrite Hc |].
    inversion IH as [|? ? Ht Hts]; subst.
    constructor; [simpl; now rewrite Hc | exact Hts].
Qed.

End CharsOfCamelCase.

Lemma toCamelCase_no_separator (str : string) :
  allChars notSeparator (toCamelCase str) = true.
Proof.
  apply toCamelCase_chars; [apply upperChar_not_separator |].
  apply splitRuns_no_separator.
Qed.

Lemma splitRuns_single (sep : ascii -> bool) (s : string) :
  allChars (fun c => negb (sep c)) s = true -> Js.splitRuns sep s = [s].
Proof.
  induction s as [|c r IH]; [reflexivity |].
  cbn [allChars Js.splitRuns]. intros [Hc Hr]%andb_true_iff.
  apply negb_true_iff in Hc. now rewrite Hc, (IH Hr).
Qed.

Lemma toCamelCase_of_word (s : string) :
  allChars notSeparator s = true -> toCamelCase s = Js.toLowerCase s.
Proof.
  intros Hs.
  assert (Hlow : allChars notSeparator (Js.toLowerCase s) = true).
  { unfold Js.toLowerCase. rewrite allChars_mapChars.
    eapply allChars_impl; [| exact Hs]. apply lowerChar_not_separator. }
  unfold toCamelCase.
  rewrite (trim_no_space s (allChars_impl _ _ s separator_of_space Hs)).
  rewrite (splitRuns_single isWordSeparator _ Hlow). reflexivity.
Qed.

(** X1.  Whatever the input, [toCamelCase] returns a string without hyphen,
    underscore or white space: all separators are consumed by the split. *)
Theorem toCamelCase_has_no_separator (str : string) :
  allChars (fun c => negb (isWordSeparator c)) (toCamelCase str) = true.
Proof. exact (toCamelCase_no_separator str). Qed.

(** X2.  On an ASCII string without separators [toCamelCase] is plain
    lower-casing: one token, and the first token is never re-capitalised, so
    humps already in the input are lost. *)
Theorem toCamelCase_single_word (s : string) :
  allChars isAscii s = true ->
  allChars notSeparator s = true -> toCamelCase s = Js.toLowerCase s.
Proof. intros _. exact (toCamelCase_of_word s). Qed.

Lemma toCamelCase_single_word_witness :
  toCamelCase "clientSubmissions" = Js.toLowerCase "clientSubmissions".
Proof. apply (toCamelCase_single_word "clientSubmissions"); reflexivity. Defined.

(** X3.  [toCamelCase] is not idempotent: applied to its own result it
    lower-cases it, for every input. *)
Theorem toCamelCase_twice_lowercases (str : string) :
  toCamelCase (toCamelCase str) = Js.toLowerCase (toCamelCase str).
Proof. apply toCamelCase_of_word, toCamelCase_no_separator. Qed.

Lemma upperChar_of_lower_not_hyphen (c : ascii) :
  Js.isLower c = true -> Ascii.eqb (Js.upperChar c) "-" = false.
Proof. destruct c as [[] [] [] [] [] [] [] []]; vm_compute; auto; discriminate. Qed.

(** X4.  [capitalize] is idempotent; on ASCII text it keeps the length and
    everything after the first character, upper-case letters included. *)
Theorem capitalize_idempotent_keeps_tail (s : string) :
  capitalize (capitalize s) = capitalize s
  /\ (allChars isAscii s = true ->
      String.length (capitalize s) = String.length s
      /\ Js.slice1 (capitalize s) = Js.slice1 s).
Proof.
  destruct s as [|c r]; [repeat split |].
  unfold capitalize. simpl. rewrite upperChar_idempotent. repeat split.
Qed.

Lemma capitalize_idempotent_keeps_tail_witness :
  String.length (capitalize "clientSubmissions") = String.length "clientSubmissions"
  /\ Js.slice1 (capitalize "clientSubmissions") = Js.slice1 "clientSubmissions".
Proof. apply (capitalize_idempotent_keeps_tail "clientSubmissions"). reflexivity. Defined.

Lemma toCamel_head_not_lower (d : ascii) (r : string) :
  Js.isLower d = false ->
  exists x y, toCamel (String d r) = String x y /\ Js.isLower x = false.
Proof.
  intros Hd. cbn [toCamel]. destruct (Ascii.eqb d "-").
  - destruct r as [|e r']; [now eauto |].
    destruct (Js.isLower e); [| now eauto].
    eexists _, _. split; [reflexivity | apply upperChar_never_lower].
  - eauto.
Qed.

Lemma toCamel_idempotent_upto (n : nat) :
  forall s : string, String.length s <= n -> toCamel (toCamel s) = toCamel s.
Proof.
  induction n as [|n IH]; intros [|c r] Hlen; try reflexivity; simpl in Hlen; [lia |].
  cbn [toCamel]. destruct (Ascii.eqb c "-") eqn:Ec.
  - destruct r as [|d r'].
    + cbn [toCamel]. now rewrite Ec.
    + destruct (Js.isLower d) eqn:Ed.
      * cbn [toCamel]. rewrite (upperChar_of_lower_not_hyphen d Ed).
        f_equal. apply IH. simpl in Hlen. lia.
      * destruct (toCamel_head_not_lower d r' Ed) as (x & y & Hxy & Hx).
        assert (Hrec : toCamel (toCamel (String d r')) = toCamel (String d r'))
          by (apply IH; lia).
        rewrite Hxy in Hrec |- *. cbn [toCamel]. rewrite Ec, Hx.
        f_equal. exact Hrec.
  - cbn [toCamel]. rewrite Ec. f_equal. apply IH. lia.
Qed.

Lemma toCamel_without_hyphen (s : string) :
  allChars notHyphen s = true -> toCamel s = s.
Proof.
  induction s as [|c r IH]; [reflexivity |].
  cbn [allChars toCamel]. unfold notHyphen at 1.
  intros [Hc Hr]%andb_true_iff. apply negb_true_iff in Hc.
  now rewrite Hc, (IH Hr).
Qed.

(** X5.  [toCamel] is idempotent: its result has no hyphen followed by a
    lower-case letter left to rewrite.  A string without hyphen is returned
    as it is: underscores, spaces and capitals are not touched. *)
Theorem toCamel_idempotent (s : string) :
  toCamel (toCamel s) = toCamel s
  /\ (allChars notHyphen s = true -> toCamel s = s).
Proof.
  split; [apply (toCamel_idempotent_upto (String.length s)); lia |].
  apply toCamel_without_hyphen.
Qed.

Lemma toCamel_idempotent_witness : toCamel "Client_Submissions 2" = "Client_Submissions 2".
Proof. apply (toCamel_idempotent "Client_Submissions 2"). reflexivity. Defined.

(** *** [writeFile] *)

Lemma trimEnd_idempotent (s : string) : Js.trimEnd (Js.trimEnd s) = Js.trimEnd s.
Proof.
  induction s as [|c r IH]; [reflexivity |].
  cbn [Js.trimEnd]. destruct (Js.trimEnd r) as [|x y] eqn:Hr.
  - destruct (Js.isSpace c) eqn:Hc; [reflexivity |]. cbn [Js.trimEnd]. now rewrite Hc.
  - cbn [Js.trimEnd] in IH |- *. now rewrite IH.
Qed.

Lemma trimEnd_keeps_head (c : ascii) (r : string) :
  Js.isSpace c = false -> exists y, Js.trimEnd (String c r) = String c y.
Proof.
  intros Hc. cbn [Js.trimEnd]. destruct (Js.trimEnd r); rewrite ?Hc; eauto.
Qed.

Lemma trimStart_head (s : string) :
  Js.trimStart s = EmptyString
  \/ exists c r, Js.trimStart s = String c r /\ Js.isSpace c = false.
Proof.
  induction s as [|c r IH]; [now left |].
  cbn [Js.trimStart]. destruct (Js.isSpace c) eqn:Hc; [exact IH | right; eauto].
Qed.

(** A trimmed string is empty or starts with a character that is no white
    space. *)
Lemma trim_head (s : string) :
  Js.trim s = EmptyString
  \/ exists c r, Js.trim s = String c r /\ Js.isSpace c = false.
Proof.
  unfold Js.trim. destruct (trimStart_head s) as [-> | (c & r & -> & Hc)]; [now left |].
  right. destruct (trimEnd_keeps_head c r Hc) as [y ->]. eauto.
Qed.

Lemma trimStart_of_head (c : ascii) (r : string) :
  Js.isSpace c = false -> Js.trimStart (String c r) = String c r.
Proof. intros Hc. cbn [Js.trimStart]. now rewrite Hc. Qed.

Lemma trimEnd_append_newline (a : string) : Js.trimEnd (a +:+ nl) = Js.trimEnd a.
Proof.
  induction a as [|c r IH]; [reflexivity |].
  simpl. cbn [Js.trimEnd]. now rewrite IH.
Qed.

Lemma trim_idempotent (s : string) : Js.trim (Js.trim s) = Js.trim s.
Proof.
  destruct (trim_head s) as [H | (c & r & H & Hc)].
  - now rewrite H.
  - unfold Js.trim at 1. rewrite H, (trimStart_of_head c r Hc), <- H.
    unfold Js.trim. apply trimEnd_idempotent.
Qed.

(** What [writeFile] stores is a fixed point of its own formatting. *)
Lemma trim_of_stored (content : string) :
  Js.trim (Js.trim content +:+ nl) = Js.trim content.
Proof.
  destruct (trim_head content) as [H | (c & r & H & Hc)].
  - now rewrite H.
  - unfold Js.trim at 1. rewrite H. simpl (String c r +:+ nl).
    rewrite (trimStart_of_head c _ Hc).
    change (String c (r +:+ nl)) with (String c r +:+ nl).
    rewrite trimEnd_append_newline, <- H.
    unfold Js.trim. apply trimEnd_idempotent.
Qed.

Lemma writeFile_run (filePath content : string) (fs : FileSystem) :
  writeFile filePath content fs =
    if bool_decide (filePath ∈ denied fs)
    then (fs, Thrown ("Failed to write file: " +:+ filePath +:+ nl +:+
                      "EACCES: permission denied, open '" +:+ filePath +:+ "'"))
    else ({| dirs := dirs fs;
             files := <[filePath := Js.trim content +:+ nl]> (files fs);
             denied := denied fs |}, Returned tt).
Proof.
  unfold writeFile, tryCatch, writeFileSync, throw.
  now destruct (bool_decide (filePath ∈ denied fs)).
Qed.

(** X6.  [writeFile] normalises what it stores: after a successful write the
    file holds the trimmed content and one final newline, and writing that
    stored text back to the same path changes nothing on the file system. *)
Theorem writeFile_stores_normal_form
    (filePath content : string) (fs fs' : FileSystem) :
  writeFile filePath content fs = (fs', Returned tt) ->
  exists stored : string,
    files fs' !! filePath = Some stored
    /\ stored = Js.trim content +:+ nl
    /\ Js.trim stored = Js.trim content
    /\ writeFile filePath stored fs' = (fs', Returned tt).
Proof.
  rewrite writeFile_run.
  destruct (bool_decide (filePath ∈ denied fs)) eqn:Hd; [discriminate |].
  intros [= <-]. exists (Js.trim content +:+ nl).
  split; [cbn [files]; apply lookup_insert_eq |].
  split; [reflexivity |]. split; [apply trim_of_stored |].
  rewrite writeFile_run. cbn [denied dirs files]. rewrite Hd, trim_of_stored.
  now rewrite insert_insert_eq.
Qed.

Lemma writeFile_stores_normal_form_witness :
  exists stored : string,
    files (writeFile "stores/shop/state.js" "  export default 1;  " emptyFileSystem).1
      !! "stores/shop/state.js" = Some stored
    /\ stored = Js.trim "  export default 1;  " +:+ nl
    /\ Js.trim stored = Js.trim "  export default 1;  "
    /\ writeFile "stores/shop/state.js" stored
         (writeFile "stores/shop/state.js" "  export default 1;  " emptyFileSystem).1
       = ((writeFile "stores/shop/state.js" "  export default 1;  " emptyFileSystem).1,
          Returned tt).
Proof.
  apply (writeFile_stores_normal_form "stores/shop/state.js" "  export default 1;  "
           emptyFileSystem).
  rewrite writeFile_run. reflexivity.
Defined.

(** ** The per-collection composer *)

Lemma foldl_members (suffix : string) (ds : list ActionDescriptor) (start : string) :
  foldl (fun content d => content +:+ memberText suffix d) start ds =
    start +:+ membersText suffix ds.
Proof.
  revert start. induction ds as [|d ds IH]; intros start; simpl.
  - now rewrite append_empty_r.
  - now rewrite IH, append_assoc.
Qed.

(** The content is the header, the members in table order, and the footer. *)
Lemma moduleContent_parts (c : string) :
  moduleContent c =
    moduleHeader c (moduleSuffix c) +:+ membersText (moduleSuffix c) actionDescriptors
    +:+ moduleFooter.
Proof. unfold moduleContent. cbv zeta. now rewrite foldl_members, append_assoc. Qed.

Lemma trimEnd_append_closing (a : string) (c : ascii) :
  Js.isSpace c = false ->
  Js.trimEnd (a +:+ String c EmptyString) = a +:+ String c EmptyString.
Proof.
  intros Hc. induction a as [|x r IH]; simpl.
  - now rewrite Hc.
  - rewrite IH. destruct r; reflexivity.
Qed.

Lemma trim_moduleContent (c : string) : Js.trim (moduleContent c) +:+ nl = moduleContent c.
Proof.
  rewrite moduleContent_parts.
  set (members := membersText (moduleSuffix c) actionDescriptors).
  set (text := moduleHeader c (moduleSuffix c) +:+ members +:+ moduleFooter).
  assert (Hhead : exists y, text = String "i" y) by (eexists; reflexivity).
  assert (Htail : exists a, text = (a +:+ "}") +:+ nl).
  { exists (moduleHeader c (moduleSuffix c) +:+ members +:+ "  };" +:+ nl).
    unfold text, moduleFooter. now rewrite !append_assoc. }
  destruct Hhead as [y Hy]. destruct Htail as [a Ha].
  unfold Js.trim. rewrite Hy, (trimStart_of_head "i" y eq_refl), <- Hy, Ha.
  now rewrite trimEnd_append_newline, (trimEnd_append_closing a "}" eq_refl).
Qed.

(** X7.  The trimming of [writeFile] takes nothing away from a composed
    module and its newline replaces the one trimmed: the content starts with
    [import] and ends with a closing brace and a line feed, so the file on
    disk after a successful run is the composed content byte for byte. *)
Theorem written_module_is_composed_content
    (baseDir n : string) (fs fs' : FileSystem) (r : GenerationResult) :
  generateCollectionActionModule baseDir n fs = (fs', Returned r) ->
  files fs' !! path r = Some (moduleContent n).
Proof.
  intros (_ & -> & ->)%generate_returned. cbn [path].
  now rewrite lookup_insert_eq, trim_moduleContent.
Qed.

Lemma written_module_is_composed_content_witness :
  files (generateCollectionActionModule "stores/shop" "products" emptyFileSystem).1
    !! "stores/shop/actions/products.js" = Some (moduleContent "products").
Proof.
  apply (written_module_is_composed_content "stores/shop" "products" emptyFileSystem _
           {| success := true; path := "stores/shop/actions/products.js" |}).
  rewrite (generate_valid "stores/shop" "products" emptyFileSystem eq_refl).
  reflexivity.
Defined.

Lemma existsSync_after_write (d k v : string) (fs : FileSystem) :
  existsSync d fs = true ->
  existsSync d {| dirs := dirs fs; files := <[k := v]> (files fs); denied := denied fs |}
  = true.
Proof.
  unfold existsSync. cbn [dirs files].
  intros [H | H]%orb_true_iff; apply orb_true_iff; [now left | right].
  apply bool_decide_eq_true in H. apply bool_decide_eq_true.
  destruct (decide (k = d)) as [-> | Hne].
  - rewrite lookup_insert_eq. eauto.
  - now rewrite lookup_insert_ne.
Qed.

Example pathAncestors_of_actions :
  pathAncestors "stores/shop/actions" = ["stores"; "stores/shop"; "stores/shop/actions"]
  /\ pathAncestors "/srv/actions" = ["/srv"; "/srv/actions"].
Proof. split; reflexivity. Qed.

Lemma path_in_prefixes (rest : string) :
  forall before : string, In (before +:+ rest) (pathPrefixes before rest).
Proof.
  induction rest as [|c r IH]; intros before; cbn [pathPrefixes].
  - rewrite append_empty_r. now left.
  - destruct (Ascii.eqb_spec c "/") as [-> | _].
    + right. specialize (IH (before +:+ "/")). now rewrite append_assoc in IH.
    + specialize (IH (before +:+ String c EmptyString)). now rewrite append_assoc in IH.
Qed.

(** A recursive [mkdirSync] leaves the directory it was asked for. *)
Lemma actionsDir_made (baseDir : string) (ds : gset string) :
  actionsDirOf baseDir ∈ (list_to_set (pathAncestors (actionsDirOf baseDir)) ∪ ds : gset string).
Proof.
  apply elem_of_union. left. apply elem_of_list_to_set, list_elem_of_In.
  unfold pathAncestors. apply filter_In. split.
  - exact (path_in_prefixes (actionsDirOf baseDir) EmptyString).
  - unfold actionsDirOf, path_join. now destruct baseDir.
Qed.

(** X8.  For a base directory as [path.join] returns it, the composer
    touches nothing but its own module: it never changes another file, it
    removes no directory and adds at most the actions directory and that
    directory's ancestors, and on every failing run, invalid name or refused
    path, it leaves all file contents as they were. *)
Theorem composer_touches_only_its_module (baseDir n : string) (fs : FileSystem) :
  normalisedPath baseDir = true ->
  let run := generateCollectionActionModule baseDir n fs in
  dirs fs ⊆ dirs run.1
  /\ dirs run.1 ⊆ list_to_set (pathAncestors (actionsDirOf baseDir)) ∪ dirs fs
  /\ (forall p : string, p <> modulePathOf baseDir n -> files run.1 !! p = files fs !! p)
  /\ (forall e : string, run.2 = Thrown e -> files run.1 = files fs).
Proof.
  intros _. cbv zeta. destruct (validCollectionName n) eqn:Hv.
  - rewrite (generate_valid baseDir n fs Hv).
    destruct (existsSync (actionsDirOf baseDir) fs);
      cbn [negb andb];
      repeat match goal with
             | |- context [bool_decide ?P] => destruct (bool_decide P)
             end;
      cbn [fst snd denied dirs files];
      (split; [first [reflexivity | apply union_subseteq_r] |]);
      (split; [first [reflexivity | apply union_subseteq_r] |]);
      (split; [intros p Hp; now rewrite ?lookup_insert_ne by congruence
              | intros e He; try discriminate He; reflexivity]).
  - rewrite (generate_invalid baseDir n fs Hv). cbn [fst snd].
    repeat split; first [reflexivity | apply union_subseteq_r].
Qed.

Lemma composer_touches_only_its_module_witness :
  let fs := {| dirs := ∅; files := {["stores/shop/state.js" := "state"]};
               denied := {["stores/shop/actions/products.js"]} |} in
  let run := generateCollectionActionModule "stores/shop" "products" fs in
  files run.1 !! "stores/shop/state.js" = files fs !! "stores/shop/state.js"
  /\ files run.1 = files fs.
Proof.
  intros fs run.
  destruct (composer_touches_only_its_module "stores/shop" "products" fs eq_refl)
    as (_ & _ & Hother & Hfail).
  split.
  - apply Hother. discriminate.
  - eapply Hfail.
    subst run. rewrite (generate_valid "stores/shop" "products" fs eq_refl). reflexivity.
Defined.

(** X9.  Running the composer again on what a successful run left is a
    no-op: it succeeds with the same result and the file system is unchanged
    (the directory is found, the same text overwrites the file). *)
Theorem composer_rerun_changes_nothing
    (baseDir n : string) (fs fs' : FileSystem) (r : GenerationResult) :
  generateCollectionActionModule baseDir n fs = (fs', Returned r) ->
  generateCollectionActionModule baseDir n fs' = (fs', Returned r).
Proof.
  intros Hrun. destruct (generate_returned _ _ _ _ _ Hrun) as (Hv & -> & _).
  rewrite (generate_valid baseDir n fs Hv) in Hrun.
  rewrite (generate_valid baseDir n fs' Hv).
  destruct (existsSync (actionsDirOf baseDir) fs) eqn:Hex; cbn [negb andb] in Hrun.
  - destruct (bool_decide (modulePathOf baseDir n ∈ denied fs)) eqn:Hd; [discriminate |].
    injection Hrun as <-.
    rewrite (existsSync_after_write _ _ _ fs Hex). cbn [negb andb denied dirs files].
    rewrite Hd. now rewrite insert_insert_eq.
  - destruct (bool_decide (actionsDirOf baseDir ∈ denied fs)); [discriminate |].
    destruct (bool_decide (modulePathOf baseDir n ∈ denied fs)) eqn:Hd; [discriminate |].
    injection Hrun as <-.
    assert (Hnow : existsSync (actionsDirOf baseDir)
                     {| dirs := list_to_set (pathAncestors (actionsDirOf baseDir)) ∪ dirs fs;
                        files := <[modulePathOf baseDir n := Js.trim (moduleContent n) +:+ nl]>
                                   (files fs);
                        denied := denied fs |} = true).
    { unfold existsSync. cbn [dirs]. apply orb_true_iff. left.
      apply bool_decide_eq_true, actionsDir_made. }
    rewrite Hnow. cbn [negb andb denied dirs files].
    rewrite Hd. now rewrite insert_insert_eq.
Qed.

Lemma composer_rerun_changes_nothing_witness :
  let run := generateCollectionActionModule "stores/shop" "products" emptyFileSystem in
  generateCollectionActionModule "stores/shop" "products" run.1 =
    (run.1, Returned {| success := true; path := "stores/shop/actions/products.js" |}).
Proof.
  intros run.
  apply (composer_rerun_changes_nothing "stores/shop" "products" emptyFileSystem).
  subst run. rewrite (generate_valid "stores/shop" "products" emptyFileSystem eq_refl).
  reflexivity.
Defined.

(** *** Member names *)

Lemma string_length_append (a b : string) :
  String.length (a +:+ b) = String.length a + String.length b.
Proof. induction a as [|x a IH]; simpl; [reflexivity | now rewrite IH]. Qed.

Lemma not_own_proper_suffix (a b : string) : a <> EmptyString -> b <> a +:+ b.
Proof.
  intros Ha H. apply (f_equal String.length) in H.
  rewrite string_length_append in H. destruct a; [contradiction | simpl in H; lia].
Qed.

(** X10.  The thirteen member names of one module are pairwise distinct,
    whatever the collection name: no wrapper of a generated module shadows
    another one of the same module. *)
Theorem member_names_distinct (c : string) : NoDup (memberNames c).
Proof.
  unfold memberNames. cbn [map actionDescriptors exportName].
  repeat (apply NoDup_cons; split;
          [ rewrite ?not_elem_of_cons; repeat split; try apply not_elem_of_nil;
            intros H; simpl in H; try discriminate H | ]);
    try apply NoDup_nil_2.
  injection H as H. now apply (not_own_proper_suffix "Where") in H.
Qed.

(** X11.  Member names are not unique across the modules of one store: for
    every collection [c], its [getWhere] member has the name of the [get]
    member of the collection called [where] followed by the capitalised [c]
    (for [users]: [getWhereUsers] is both [getWhere] of [users] and [get] of
    [whereUsers]). *)
Theorem member_name_shared_by_two_collections (c : string) :
  let other := "where" +:+ moduleSuffix c in
  other <> c
  /\ "getWhere" +:+ moduleSuffix c ∈ memberNames c
  /\ "getWhere" +:+ moduleSuffix c ∈ memberNames other
  /\ nth_error (memberNames c) 6 = Some ("getWhere" +:+ moduleSuffix c)
  /\ nth_error (memberNames other) 5 = Some ("getWhere" +:+ moduleSuffix c).
Proof.
  cbv zeta. split; [| unfold memberNames; cbn [map actionDescriptors exportName];
                      repeat split; set_solver].
  intros H. apply (f_equal String.length) in H.
  rewrite string_length_append in H. unfold moduleSuffix, capitalize in H.
  destruct c as [|x r]; simpl in H; lia.
Qed.

(** *** The wrappers in the module text *)

Lemma membersText_holds (suffix : string) (d : ActionDescriptor) (ds : list ActionDescriptor) :
  d ∈ ds -> exists a b, membersText suffix ds = a +:+ memberText suffix d +:+ b.
Proof.
  induction 1 as [d ds | d d' ds _ (a & b & IH)];
    unfold membersText; cbn [foldr]; fold (membersText suffix ds).
  - exists EmptyString, (membersText suffix ds). reflexivity.
  - exists (memberText suffix d' +:+ a), b. now rewrite IH, append_assoc.
Qed.

(** X12.  For every collection and every descriptor of the table the module
    text contains that descriptor's wrapper: a method with the descriptor's
    member name that takes any arguments and returns what the operation named
    by the descriptor's own key returns on the shared action set. *)
Theorem module_forwards_every_descriptor (c : string) :
  Forall (fun d =>
            Js.includes (moduleContent c)
              ("    " +:+ exportName d (moduleSuffix c) +:+ "(...args) {" +:+ nl +:+
               "      return getActions()." +:+ key d +:+ "(...args);" +:+ nl +:+
               "    },") = true)
         actionDescriptors.
Proof.
  apply Forall_forall. intros d Hd.
  destruct (membersText_holds (moduleSuffix c) d actionDescriptors Hd) as (a & b & Hab).
  rewrite moduleContent_parts, Hab. unfold memberText. cbv zeta.
  set (wrapper := "    " +:+ exportName d (moduleSuffix c) +:+ "(...args) {" +:+ nl +:+
                  "      return getActions()." +:+ key d +:+ "(...args);" +:+ nl +:+ "    },").
  match goal with
  | |- Js.includes ?t wrapper = true =>
      replace t with
        ((moduleHeader c (moduleSuffix c) +:+ a +:+ "    " +:+ memberDoc (moduleSuffix c) d
          +:+ nl) +:+ wrapper +:+ (nl +:+ nl +:+ b +:+ moduleFooter))
  end.
  - apply includes_append.
  - unfold wrapper. now rewrite !append_assoc.
Qed.

(** ** The driver *)

Lemma lowerChar_idempotent (c : ascii) : Js.lowerChar (Js.lowerChar c) = Js.lowerChar c.
Proof. destruct c as [[] [] [] [] [] [] [] []]; reflexivity. Qed.

Lemma lowered_letter (c : ascii) : Js.isLower (Js.lowerChar c) = true -> isLetter c = true.
Proof. destruct c as [[] [] [] [] [] [] [] []]; vm_compute; auto. Qed.

Lemma mapChars_mapChars (f g : ascii -> ascii) (s : string) :
  Js.mapChars f (Js.mapChars g s) = Js.mapChars (fun c => f (g c)) s.
Proof. induction s as [|c r IH]; simpl; [reflexivity | now rewrite IH]. Qed.

Lemma mapChars_ext (f g : ascii -> ascii) (s : string) :
  (forall c, f c = g c) -> Js.mapChars f s = Js.mapChars g s.
Proof. intros H. induction s as [|c r IH]; simpl; [reflexivity | now rewrite H, IH]. Qed.

Lemma mapChars_length (f : ascii -> ascii) (s : string) :
  String.length (Js.mapChars f s) = String.length s.
Proof. induction s as [|c r IH]; simpl; [reflexivity | now rewrite IH]. Qed.

(** X13.  On ASCII names the auth classification of the driver ignores
    case: a name, its upper-cased and its lower-cased form are classified
    alike. *)
Theorem isAuthCollection_ignores_case (c : string) :
  allChars isAscii c = true ->
  isAuthCollection (Js.toUpperCase c) = isAuthCollection c
  /\ isAuthCollection (Js.toLowerCase c) = isAuthCollection c.
Proof.
  intros _. unfold isAuthCollection, Js.toLowerCase, Js.toUpperCase.
  rewrite !mapChars_mapChars.
  rewrite (mapChars_ext _ Js.lowerChar c lowerChar_upperChar).
  now rewrite (mapChars_ext _ Js.lowerChar c lowerChar_idempotent).
Qed.

Lemma isAuthCollection_ignores_case_witness :
  isAuthCollection (Js.toUpperCase "Users") = isAuthCollection "Users"
  /\ isAuthCollection (Js.toLowerCase "Users") = isAuthCollection "Users".
Proof. apply (isAuthCollection_ignores_case "Users"). reflexivity. Defined.

Lemma valid_of_lowered (c w : string) :
  Js.toLowerCase c = w -> allChars Js.isLower w = true -> w <> EmptyString ->
  String.length w <= 64 -> validCollectionName c = true.
Proof.
  intros <- Hlow Hne Hlen.
  unfold Js.toLowerCase in *. rewrite mapChars_length in Hlen.
  rewrite allChars_mapChars in Hlow.
  assert (Hletters : allChars isLetter c = true)
    by (eapply allChars_impl; [| exact Hlow]; apply lowered_letter).
  destruct c as [|x r]; [now contradiction Hne |].
  cbn [allChars] in Hletters. apply andb_true_iff in Hletters as [Hx Hr].
  cbn [validCollectionName]. rewrite Hx, (allChars_impl _ _ r letter_is_nameChar Hr).
  simpl in Hlen |- *. apply Nat.leb_le. lia.
Qed.

Lemma auth_collection_valid (c : string) :
  isAuthCollection c = true -> validCollectionName c = true.
Proof.
  unfold isAuthCollection, authCollectionNouns. intros H%bool_decide_eq_true.
  repeat (apply elem_of_cons in H as [H | H];
          [eapply valid_of_lowered; [exact H | reflexivity | discriminate | simpl; lia] |]).
  now apply elem_of_nil in H.
Qed.

(** X14.  Every name the driver classifies as an auth collection passes the
    name check of the composer: classification never selects a collection
    whose module cannot be generated. *)
Theorem auth_collections_have_valid_names (c : string) :
  isAuthCollection c = true -> validCollectionName c = true.
Proof. exact (auth_collection_valid c). Qed.

Lemma auth_collections_have_valid_names_witness : validCollectionName "Users" = true.
Proof. apply (auth_collections_have_valid_names "Users"). reflexivity. Defined.

Lemma splitOn_no_separator (sep : ascii) (s : string) :
  List.Forall (fun t => allChars (fun c => negb (Ascii.eqb c sep)) t = true) (splitOn sep s).
Proof.
  induction s as [|c r IH]; [repeat constructor |].
  cbn [splitOn]. destruct (Ascii.eqb c sep) eqn:Hc.
  - constructor; [reflexivity | exact IH].
  - destruct (splitOn sep r) as [|t ts]; [repeat constructor; simpl; now rewrite Hc |].
    inversion IH as [|? ? Ht Hts]; subst.
    constructor; [simpl; now rewrite Hc | exact Hts].
Qed.

Lemma toCamelCase_no_comma (t : string) :
  allChars notComma t = true -> allChars notComma (toCamelCase t) = true.
Proof.
  intros Ht. apply toCamelCase_chars; [apply upperChar_not_comma |].
  apply splitRuns_all. unfold Js.toLowerCase. rewrite allChars_mapChars.
  eapply allChars_impl; [apply lowerChar_not_comma |].
  unfold Js.trim. now apply allChars_trimEnd, allChars_trimStart.
Qed.

(** X15.  The collection list of a run is clean: every name the driver
    derives from the comma-separated answer is non-empty and holds no comma,
    hyphen, underscore or white space; the auth collections are among the
    collections and all of them pass the composer's name check. *)
Theorem driver_collections_are_clean (collectionsInput : string) :
  Forall (fun n => n <> EmptyString
                   /\ allChars notComma n = true
                   /\ allChars notSeparator n = true)
         (driverCollections collectionsInput)
  /\ Forall (fun n => In n (driverCollections collectionsInput)
                      /\ validCollectionName n = true)
            (driverAuthCollections collectionsInput).
Proof.
  split; apply List.Forall_forall; intros n Hn.
  - unfold driverCollections in Hn. apply filter_In in Hn as [Hn Hne].
    apply in_map_iff in Hn as (t & <- & Ht).
    split; [intros E; rewrite E in Hne; discriminate Hne |].
    rewrite driverCollectionName_eq. split; [| apply toCamelCase_no_separator].
    apply toCamelCase_no_comma.
    exact (proj1 (List.Forall_forall _ _) (splitOn_no_separator "," collectionsInput) t Ht).
  - unfold driverAuthCollections in Hn. apply filter_In in Hn as [Hn Hauth].
    split; [exact Hn | now apply auth_collection_valid].
Qed.

Example driverCollections_answer :
  driverCollections " Users, client-submissions,,order_items , " =
    ["users"; "clientSubmissions"; "orderItems"]
  /\ driverAuthCollections " Users, client-submissions,,order_items , " = ["users"].
Proof. split; reflexivity. Qed.

(** *** The loop over the collections *)

Lemma modulePathOf_inj (baseDir c c' : string) :
  modulePathOf baseDir c = modulePathOf baseDir c' -> c = c'.
Proof.
  unfold modulePathOf, path_join. intros H.
  do 2 apply append_inv_head in H. now apply append_inv_tail in H.
Qed.

(** One run changes the file contents in one of two ways: not at all, or by
    storing the composed content of its collection at its path. *)
Lemma generate_files (baseDir c : string) (fs : FileSystem) :
  let run := generateCollectionActionModule baseDir c fs in
  denied run.1 = denied fs
  /\ (files run.1 = files fs
      \/ files run.1 = <[modulePathOf baseDir c := moduleContent c]> (files fs)).
Proof.
  cbv zeta. destruct (validCollectionName c) eqn:Hv.
  - rewrite (generate_valid baseDir c fs Hv), trim_moduleContent.
    destruct (existsSync (actionsDirOf baseDir) fs); cbn [negb andb];
      repeat match goal with
             | |- context [bool_decide ?P] => destruct (bool_decide P)
             end;
      cbn [fst denied files]; auto.
  - rewrite (generate_invalid baseDir c fs Hv). auto.
Qed.

Lemma generate_keeps_module (baseDir c c' : string) (fs : FileSystem) :
  files fs !! modulePathOf baseDir c = Some (moduleContent c) ->
  files (generateCollectionActionModule baseDir c' fs).1 !! modulePathOf baseDir c
  = Some (moduleContent c).
Proof.
  intros H. destruct (generate_files baseDir c' fs) as [_ [-> | ->]]; [exact H |].
  destruct (decide (c' = c)) as [-> | Hne].
  - apply lookup_insert_eq.
  - rewrite lookup_insert_ne; [exact H |].
    intros E. now apply modulePathOf_inj in E.
Qed.

Lemma loop_keeps_module (baseDir c : string) (collections : list string) :
  forall fs : FileSystem,
    files fs !! modulePathOf baseDir c = Some (moduleContent c) ->
    files (generateCollectionModules baseDir collections fs).1 !! modulePathOf baseDir c
    = Some (moduleContent c).
Proof.
  induction collections as [|c' cs IH]; intros fs H; [exact H |].
  unfold generateCollectionModules. cbn [forEach]. unfold bind at 1 2.
  pose proof (generate_keeps_module baseDir c c' fs H) as H1.
  destruct (generateCollectionActionModule baseDir c' fs) as [fs1 [r | e]];
    cbn [fst] in H1; [| exact H1].
  unfold ret at 1. apply (IH fs1 H1).
Qed.

Lemma generate_cooperative (baseDir c : string) (fs : FileSystem) :
  validCollectionName c = true ->
  actionsDirOf baseDir ∉ denied fs ->
  modulePathOf baseDir c ∉ denied fs ->
  exists fs' : FileSystem,
    generateCollectionActionModule baseDir c fs =
      (fs', Returned {| success := true; path := modulePathOf baseDir c |})
    /\ denied fs' = denied fs
    /\ files fs' !! modulePathOf baseDir c = Some (moduleContent c).
Proof.
  intros Hv Hdir Hfile. rewrite (generate_valid baseDir c fs Hv), trim_moduleContent.
  rewrite (bool_decide_eq_false_2 _ Hdir), (bool_decide_eq_false_2 _ Hfile), andb_false_r.
  eexists. split; [reflexivity |]. cbn [denied files].
  split; [now destruct (existsSync _ _) | apply lookup_insert_eq].
Qed.

Lemma modules_written (baseDir : string) (collections : list string) :
  forall fs : FileSystem,
    Forall (fun c => validCollectionName c = true) collections ->
    actionsDirOf baseDir ∉ denied fs ->
    Forall (fun c => modulePathOf baseDir c ∉ denied fs) collections ->
    exists fs' : FileSystem,
      generateCollectionModules baseDir collections fs = (fs', Returned tt)
      /\ denied fs' = denied fs
      /\ Forall (fun c => files fs' !! modulePathOf baseDir c = Some (moduleContent c))
                collections.
Proof.
  induction collections as [|c cs IH]; intros fs Hvalid Hdir Hfiles.
  - exists fs. repeat split. constructor.
  - apply Forall_cons in Hvalid as [Hv Hvs]. apply Forall_cons in Hfiles as [Hf Hfs].
    destruct (generate_cooperative baseDir c fs Hv Hdir Hf) as (fs1 & Hrun & Hden & Hfile).
    destruct (IH fs1 Hvs) as (fs' & Hloop & Hden' & Hall).
    { now rewrite Hden. }
    { eapply Forall_impl; [exact Hfs |]. intros c' Hc'. now rewrite Hden. }
    exists fs'. split; [| split].
    + unfold generateCollectionModules in *. cbn [forEach]. unfold bind at 1 2.
      rewrite Hrun. unfold ret at 1. exact Hloop.
    + now rewrite Hden', Hden.
    + apply Forall_cons. split; [| exact Hall].
      pose proof (loop_keeps_module baseDir c cs fs1 Hfile) as Hkeep.
      now rewrite Hloop in Hkeep.
Qed.

Lemma forEach_app {S E A} (f : A -> M S E unit) (l1 l2 : list A) (s : S) :
  forEach f (l1 ++ l2) s =
    match forEach f l1 s with
    | (s', Returned _) => forEach f l2 s'
    | (s', Thrown e) => (s', Thrown e)
    end.
Proof.
  revert s. induction l1 as [|x l1 IH]; intros s; [reflexivity |].
  cbn [forEach app]. unfold bind. destruct (f x s) as [s1 [[] | e]]; [apply IH | reflexivity].
Qed.

(** X16.  When every collection of the run has a valid name and the file
    system refuses none of the paths, the loop of the driver returns and
    every collection, repeated names included, has its module on disk with
    exactly the composed content. *)
Theorem all_modules_written (baseDir : string) (collections : list string)
    (fs : FileSystem) :
  Forall (fun c => validCollectionName c = true) collections ->
  actionsDirOf baseDir ∉ denied fs ->
  Forall (fun c => modulePathOf baseDir c ∉ denied fs) collections ->
  exists fs' : FileSystem,
    generateCollectionModules baseDir collections fs = (fs', Returned tt)
    /\ Forall (fun c => files fs' !! modulePathOf baseDir c = Some (moduleContent c))
              collections.
Proof.
  intros Hv Hd Hf. destruct (modules_written baseDir collections fs Hv Hd Hf)
    as (fs' & Hrun & _ & Hall). eauto.
Qed.

Lemma all_modules_written_witness :
  exists fs' : FileSystem,
    generateCollectionModules "stores/shop" ["products"; "orders"; "products"] emptyFileSystem
    = (fs', Returned tt)
    /\ Forall (fun c => files fs' !! modulePathOf "stores/shop" c = Some (moduleContent c))
              ["products"; "orders"; "products"].
Proof.
  apply (all_modules_written "stores/shop" ["products"; "orders"; "products"] emptyFileSystem).
  - repeat constructor.
  - apply not_elem_of_empty.
  - repeat constructor; apply not_elem_of_empty.
Defined.

(** X17.  The loop stops at the first collection whose name the composer
    rejects and raises that collection's invalid-name error; the modules of
    the collections before it stay on disk (nothing is rolled back) and no
    later collection is looked at. *)
Theorem loop_stops_at_first_invalid_name
    (baseDir : string) (before after : list string) (bad : string) (fs : FileSystem) :
  Forall (fun c => validCollectionName c = true) before ->
  validCollectionName bad = false ->
  actionsDirOf baseDir ∉ denied fs ->
  Forall (fun c => modulePathOf baseDir c ∉ denied fs) before ->
  exists fs' : FileSystem,
    generateCollectionModules baseDir (before ++ bad :: after) fs =
      (fs', Thrown (invalidNameError bad))
    /\ generateCollectionModules baseDir before fs = (fs', Returned tt)
    /\ Forall (fun c => files fs' !! modulePathOf baseDir c = Some (moduleContent c)) before.
Proof.
  intros Hv Hbad Hd Hf.
  destruct (modules_written baseDir before fs Hv Hd Hf) as (fs' & Hrun & _ & Hall).
  exists fs'. split; [| split; assumption].
  unfold generateCollectionModules in *. rewrite forEach_app, Hrun.
  cbn [forEach]. unfold bind at 1 2.
  now rewrite (generate_invalid baseDir bad fs' Hbad).
Qed.

Lemma loop_stops_at_first_invalid_name_witness :
  exists fs' : FileSystem,
    generateCollectionModules "stores/shop" (["products"] ++ "2fast" :: ["orders"])
      emptyFileSystem = (fs', Thrown (invalidNameError "2fast"))
    /\ generateCollectionModules "stores/shop" ["products"] emptyFileSystem
       = (fs', Returned tt)
    /\ Forall (fun c => files fs' !! modulePathOf "stores/shop" c = Some (moduleContent c))
              ["products"].
Proof.
  apply (loop_stops_at_first_invalid_name "stores/shop" ["products"] ["orders"] "2fast"
           emptyFileSystem).
  - repeat constructor.
  - reflexivity.
  - apply not_elem_of_empty.
  - repeat constructor; apply not_elem_of_empty.
Defined.

(** ** The generated flows: what they leave in the store *)

Section KeepsError.

Context {A B : Type}.

Lemma keepsError_ret (a : A) : keepsError (ret a : Flow A).
Proof. now intros s. Qed.

Lemma keepsError_throw (e : JsError) : keepsError (throw e : Flow A).
Proof. now intros s. Qed.

Lemma keepsError_await (r : Outcome JsError A) : keepsError (await r).
Proof. now intros s. Qed.

Lemma keepsError_gets (f : AuthState -> A) : keepsError (gets f : Flow A).
Proof. now intros s. Qed.

Lemma keepsError_bind (m : Flow A) (k : A -> Flow B) :
  keepsError m -> (forall a, keepsError (k a)) -> keepsError (bind m k).
Proof.
  intros Hm Hk s. unfold bind. specialize (Hm s).
  destruct (m s) as [s1 [a | e]]; simpl in *; [| exact Hm].
  now rewrite (Hk a s1).
Qed.

Lemma keepsError_tryCatch (body : Flow A) (handler : JsError -> Flow A) :
  keepsError body -> (forall e, keepsError (handler e)) -> keepsError (tryCatch body handler).
Proof.
  intros Hb Hh s. unfold tryCatch. specialize (Hb s).
  destruct (body s) as [s1 [a | e]]; simpl in *; [exact Hb |].
  now rewrite (Hh e s1).
Qed.

End KeepsError.

Lemma keepsError_setCurrentUser (v : JsValue) : keepsError (setCurrentUser v).
Proof. now intros s. Qed.

Lemma keepsError_setEmailVerificationSent (b : bool) : keepsError (setEmailVerificationSent b).
Proof.
  intros s. unfold setEmailVerificationSent.
  now destruct (emailVerificationSent (store s)).
Qed.

Ltac flow_keeps_error :=
  repeat first
    [ apply keepsError_ret | apply keepsError_throw | apply keepsError_await
    | apply keepsError_gets | apply keepsError_setCurrentUser
    | apply keepsError_setEmailVerificationSent
    | apply keepsError_bind; [| intros ?]
    | apply keepsError_tryCatch; [| intros ?]
    | match goal with
      | |- keepsError (if ?b then _ else _) => destruct b
      | |- keepsError (match ?x with _ => _ end) => destruct x
      end ].




Lemma relabelled_flow_reports {A} (body : Flow A) (code message : string) :
  keepsError body ->
  failureIsRelabelled code message
    (setLoading true ;;; setError VNull ;;;
     tryCatchFinally body (recordAndRethrow code message) (setLoading false)).
Proof.
  intros Hb s.
  unfold bind, tryCatchFinally, tryCatch, recordAndRethrow, setLoading, setError,
    assign, modify, throw.
  match goal with
  | |- context [body ?s2] => pose proof (Hb s2) as Hs2; destruct (body s2) as [s3 [a | cause]]
  end; cbn [fst snd store error] in *.
  - exact Hs2.
  - exists cause. split; reflexivity.
Qed.



(** X19.  [logout] and [updateProfile] relabel their failures: whatever went
    wrong, the thrown value has the flow's own code and message
    ([auth/logout-failed] / [Logout failed], [auth/profile-update-failed] /
    [Profile update failed]) and the cause as [originalError], while the
    [error] field gets the message of the cause; after a return [error] is
    [null]. *)
Theorem relabelled_flows_report_failures (fb : Firebase) :
  failureIsRelabelled "auth/logout-failed" "Logout failed" (logout fb)
  /\ (forall profileData,
        failureIsRelabelled "auth/profile-update-failed" "Profile update failed"
          (updateProfile fb profileData)).
Proof.
  split; [| intros profileData];
    [unfold logout | unfold updateProfile];
    apply relabelled_flow_reports; flow_keeps_error.
Qed.

(** *** Login *)

Lemma basicUser_uid (u : FirebaseUser) : objGet "uid" (basicUser u) = uid u.
Proof. reflexivity. Qed.

Lemma objGet_objSet (k k' : string) (v : JsValue) (o : JsObject) :
  objGet k (objSet k' v o) = if String.eqb k k' then v else objGet k o.
Proof.
  induction o as [|[k0 v0] o IH]; simpl.
  - rewrite String.eqb_sym. now destruct (String.eqb k' k).
  - destruct (String.eqb k' k0) eqn:E0; simpl.
    + apply String.eqb_eq in E0 as ->. rewrite (String.eqb_sym k k0).
      now destruct (String.eqb k0 k).
    + rewrite IH. destruct (String.eqb k k0) eqn:E1; [| reflexivity].
      apply String.eqb_eq in E1 as ->. rewrite String.eqb_sym. now rewrite E0.
Qed.

(** In [{ ...a, ...b }] the properties of [b] win and the other properties
    of [a] stay. *)
Lemma objGet_spread (k : string) (b : JsObject) :
  NoDup (objKeys b) ->
  forall a : JsObject,
    objGet k (spread a b) = if bool_decide (k ∈ objKeys b) then objGet k b else objGet k a.
Proof.
  unfold spread.
  induction b as [|[k' v] b IH]; intros Hnd a; [reflexivity |].
  apply NoDup_cons in Hnd as [Hk' Hnd]. cbn [foldl objKeys map fst snd objGet].
  rewrite (IH Hnd), objGet_objSet. fold (objKeys b).
  destruct (String.eqb_spec k k') as [-> | Hne].
  - rewrite (bool_decide_eq_false_2 _ Hk'), bool_decide_eq_true_2; [reflexivity | left].
  - destruct (bool_decide (k ∈ objKeys b)) eqn:Hin.
    + rewrite bool_decide_eq_true_2; [reflexivity |].
      right. now apply bool_decide_eq_true in Hin.
    + rewrite bool_decide_eq_false_2; [reflexivity |].
      apply bool_decide_eq_false in Hin. intros [? | ?]%elem_of_cons; contradiction.
Qed.

Lemma login_signed_in (fb : Firebase) (email_ password : string) (u : FirebaseUser)
    (s : AuthState) :
  fb_setPersistence fb = Returned tt ->
  fb_signInWithEmailAndPassword fb email_ password = Returned u ->
  login fb email_ password s =
    ({| store := {| loading := false; error := VNull;
                    currentUser := VObj (loggedInUser fb u);
                    authInitialized := authInitialized (store s);
                    emailVerificationSent := emailVerificationSent (store s) |};
        subscriptions := subscriptions s;
        writes := writes s ++ [WLoading true; WError VNull;
                               WCurrentUser (VObj (loggedInUser fb u)); WLoading false] |},
     Returned {| ok := true; user := VObj (loggedInUser fb u) |}).
Proof.
  intros Hp Hs.
  unfold login, loggedInUser, bind, tryCatchFinally, tryCatch, await, ret, gets,
    setLoading, setError, setCurrentUser, assign, modify.
  rewrite Hp, Hs, basicUser_uid.
  destruct (truthy (uid u)); [destruct (primary_get fb (uid u)) as [[p |] | e] |];
    cbn [fst snd store writes subscriptions currentUser loading error authInitialized
         emailVerificationSent];
    rewrite <- !app_assoc; reflexivity.
Qed.



(** X21.  When [login] has fetched a profile, the stored user is the merge
    of the Firebase fields and the profile in which the profile wins: every
    property of the profile has the profile's value, every other property
    has the value of the Firebase user. *)
Theorem login_profile_overrides_firebase_fields (fb : Firebase) (email_ password : string)
    (u : FirebaseUser) (userProfile : JsObject) (s : AuthState) :
  fb_setPersistence fb = Returned tt ->
  fb_signInWithEmailAndPassword fb email_ password = Returned u ->
  truthy (uid u) = true ->
  primary_get fb (uid u) = Returned (Some userProfile) ->
  NoDup (objKeys userProfile) ->
  exists merged : JsObject,
    currentUser (store (login fb email_ password s).1) = VObj merged
    /\ forall k : string,
         objGet k merged =
           if bool_decide (k ∈ objKeys userProfile) then objGet k userProfile
           else objGet k (basicUser u).
Proof.
  intros Hp Hs Huid Hget Hnd.
  rewrite (login_signed_in fb email_ password u s Hp Hs). cbn [fst store currentUser].
  unfold loggedInUser. rewrite Huid, Hget.
  eexists. split; [reflexivity |]. intros k. now apply objGet_spread.
Qed.

Lemma login_profile_overrides_firebase_fields_witness :
  exists merged : JsObject,
    currentUser (store (login aliceFirebase "alice@example.com" "pw" freshAuthState).1)
    = VObj merged
    /\ objGet "email" merged = VStr "alice@work.example"
    /\ objGet "uid" merged = VStr "u1".
Proof.
  destruct (login_profile_overrides_firebase_fields aliceFirebase "alice@example.com" "pw"
              {| uid := VStr "u1"; email := VStr "alice@example.com";
                 emailVerified := VBool true; displayName := VStr "Alice";
                 photoURL := VNull; creationTime := VStr "t0"; lastSignInTime := VStr "t1" |}
              [("roles", VStr "admin"); ("email", VStr "alice@work.example")]
              freshAuthState eq_refl eq_refl eq_refl eq_refl)
    as (merged & Hcur & Hget).
  - apply (bool_decide_unpack _). reflexivity.
  - exists merged. split; [exact Hcur |]. split.
    + rewrite (Hget "email"). reflexivity.
    + rewrite (Hget "uid"). reflexivity.
Defined.

(** *** What a failing flow has done to the store *)

Ltac flow_unfold :=
  unfold login, signUp, logout, sendPasswordReset, updateProfile, changePassword,
    resendVerificationEmail, classifyAndRethrow, recordAndRethrow, bind, tryCatchFinally,
    tryCatch, await, ret, gets, throw, setLoading, setError, setCurrentUser,
    setEmailVerificationSent, assign, modify.

Ltac flow_reduce :=
  cbn [fst snd store writes subscriptions currentUser loading error authInitialized
       emailVerificationSent].

(** Case analysis on what the collaborators answer, one call at a time. *)
Ltac oracle_cases :=
  repeat (flow_reduce;
          match goal with
          | |- context [fb_setPersistence ?f] => destruct (fb_setPersistence f) as [[] | ?]
          | |- context [fb_signInWithEmailAndPassword ?f ?e ?p] =>
              destruct (fb_signInWithEmailAndPassword f e p) as [? | ?]
          | |- context [fb_createUserWithEmailAndPassword ?f ?e ?p] =>
              destruct (fb_createUserWithEmailAndPassword f e p) as [? | ?]
          | |- context [fb_updateProfile ?f ?u ?a ?b] =>
              destruct (fb_updateProfile f u a b) as [? | ?]
          | |- context [fb_signOut ?f] => destruct (fb_signOut f) as [[] | ?]
          | |- context [fb_sendEmailVerification ?f ?u] =>
              destruct (fb_sendEmailVerification f u) as [[] | ?]
          | |- context [fb_sendPasswordResetEmail ?f ?e] =>
              destruct (fb_sendPasswordResetEmail f e) as [[] | ?]
          | |- context [fb_reauthenticateWithCredential ?f ?u ?e ?p] =>
              destruct (fb_reauthenticateWithCredential f u e p) as [[] | ?]
          | |- context [fb_updatePassword ?f ?u ?p] =>
              destruct (fb_updatePassword f u p) as [[] | ?]
          | |- context [fb_currentUser ?f] => destruct (fb_currentUser f) as [? |]
          | |- context [primary_get ?f ?k] => destruct (primary_get f k) as [[? |] | ?]
          | |- context [primary_add ?f ?d] => destruct (primary_add f d) as [[] | ?]
          | |- context [primary_update ?f ?k ?d] => destruct (primary_update f k d) as [[] | ?]
          | |- context [emailVerificationSent (store ?s)] =>
              destruct (emailVerificationSent (store s)) as [? |]
          | |- context [if truthy ?v then _ else _] => destruct (truthy v)
          | |- context [if ?b || ?c then _ else _] => destruct (b || c)
          | |- context [if ?b then _ else _] => is_var b; destruct b
          end);
  flow_reduce.

(** X22.  [login] and [signUp] assign the current user as their last step:
    whenever one of them throws, the current user of the store is the one it
    was before the call. *)
Theorem failed_login_and_signUp_keep_current_user (fb : Firebase) (s : AuthState) :
  (forall email_ password e,
     (login fb email_ password s).2 = Thrown e ->
     currentUser (store (login fb email_ password s).1) = currentUser (store s))
  /\ (forall email_ password profileData sendVerification e,
        (signUp fb email_ password profileData sendVerification s).2 = Thrown e ->
        currentUser (store (signUp fb email_ password profileData sendVerification s).1)
        = currentUser (store s)).
Proof.
  split; intros until e; flow_unfold; oracle_cases;
    intros H; first [discriminate H | reflexivity].
Qed.

Lemma failed_login_and_signUp_keep_current_user_witness :
  currentUser (store (login signedOutFirebase "a@b.c" "pw" freshAuthState).1)
  = currentUser (store freshAuthState).
Proof.
  eapply (proj1 (failed_login_and_signUp_keep_current_user signedOutFirebase freshAuthState)).
  reflexivity.
Defined.

(** X23.  On a store whose state object has no [emailVerificationSent] ref,
    as the state module of this generator creates it, three flows cannot
    succeed: [logout] always throws, and does so after it has cleared the
    current user when the sign-out itself went through; [signUp] with
    verification requested and [resendVerificationEmail] always throw. *)
Theorem flows_fail_without_emailVerificationSent (fb : Firebase) (s : AuthState) :
  emailVerificationSent (store s) = None ->
  (exists e, (logout fb s).2 = Thrown e)
  /\ (fb_signOut fb = Returned tt -> currentUser (store (logout fb s).1) = VNull)
  /\ (forall email_ password profileData,
        exists e, (signUp fb email_ password profileData true s).2 = Thrown e)
  /\ (exists e, (resendVerificationEmail fb s).2 = Thrown e).
Proof.
  intros H. repeat split; [| intros Hout; revert Hout | intros email_ password profileData |];
    revert H; flow_unfold; oracle_cases; intros; try discriminate; eauto.
Qed.

Lemma flows_fail_without_emailVerificationSent_witness :
  (exists e, (logout signedOutFirebase freshAuthState).2 = Thrown e)
  /\ currentUser (store (logout signedOutFirebase freshAuthState).1) = VNull.
Proof.
  destruct (flows_fail_without_emailVerificationSent signedOutFirebase freshAuthState eq_refl)
    as (H1 & H2 & _).
  split; [exact H1 | apply H2; reflexivity].
Defined.

(** X24.  Without a signed-in Firebase user, [updateProfile],
    [changePassword] and [resendVerificationEmail] fail before any Firebase
    call is made: the only assignments are the two on entry, the message of
    the guard into [error], and [loading = false]; the current user is not
    touched. *)
Theorem flows_need_signed_in_user (fb : Firebase) (s : AuthState) :
  fb_currentUser fb = None ->
  (forall profileData,
     let run := updateProfile fb profileData s in
     run.2 = Thrown (mkError (Some "auth/profile-update-failed") (Some "Profile update failed")
                       (Some (newError "No authenticated user to update profile.")))
     /\ writes run.1 = writes s ++ [WLoading true; WError VNull;
                                    WError (VStr "No authenticated user to update profile.");
                                    WLoading false]
     /\ currentUser (store run.1) = currentUser (store s))
  /\ (forall currentPassword newPassword,
        let message :=
          "No authenticated user or email not available for reauthentication." in
        let run := changePassword fb currentPassword newPassword s in
        run.2 = Thrown (mkError None (Some message) (Some (newError message)))
        /\ writes run.1 = writes s ++ [WLoading true; WError VNull; WError (VStr message);
                                       WLoading false]
        /\ currentUser (store run.1) = currentUser (store s))
  /\ (let message := "No authenticated user to send verification email." in
      let run := resendVerificationEmail fb s in
      run.2 = Thrown (mkError None (Some message) (Some (newError message)))
      /\ writes run.1 = writes s ++ [WLoading true; WError VNull; WError (VStr message);
                                     WLoading false]
      /\ currentUser (store run.1) = currentUser (store s)).
Proof.
  intros H. repeat split; cbv zeta; flow_unfold; rewrite H; flow_reduce;
    rewrite <- ?app_assoc; reflexivity.
Qed.

Lemma flows_need_signed_in_user_witness :
  (resendVerificationEmail signedOutFirebase freshAuthState).2 =
    Thrown (mkError None (Some "No authenticated user to send verification email.")
              (Some (newError "No authenticated user to send verification email."))).
Proof.
  apply (flows_need_signed_in_user signedOutFirebase freshAuthState eq_refl).
Defined.

(** *** Session restore *)

Lemma authListener_run (fb : Firebase) (u : option FirebaseUser) (s : AuthState) :
  authListener fb u s =
    ({| store := {| loading := loading (store s); error := error (store s);
                    currentUser := listenerUser fb u; authInitialized := true;
                    emailVerificationSent := emailVerificationSent (store s) |};
        subscriptions := subscriptions s;
        writes := writes s ++ [WCurrentUser (listenerUser fb u); WAuthInitialized true] |},
     Returned (listenerUser fb u)).
Proof.
  unfold authListener, listenerUser, bind, tryCatchFinally, tryCatch, await, gets,
    setCurrentUser, setAuthInitialized, setError, assign, modify.
  destruct u as [u |]; [destruct (primary_get fb (uid u)) as [[p |] | e] |];
    flow_reduce; rewrite <- app_assoc; reflexivity.
Qed.

Lemma notifyListeners_run (fb : Firebase) (u : option FirebaseUser) (n : nat) :
  forall s : AuthState,
    let run := notifyListeners fb n u s in
    run.2 = Returned tt
    /\ error (store run.1) = error (store s)
    /\ loading (store run.1) = loading (store s)
    /\ subscriptions run.1 = subscriptions s
    /\ length (writes run.1) = length (writes s) + 2 * n
    /\ authInitialized (store run.1) =
         match n with 0 => authInitialized (store s) | _ => true end
    /\ currentUser (store run.1) =
         match n with 0 => currentUser (store s) | _ => listenerUser fb u end.
Proof.
  induction n as [|n IH]; intros s; cbv zeta.
  - cbn [notifyListeners]. unfold ret. cbn [fst snd]. repeat split; lia.
  - assert (Hstep : notifyListeners fb (S n) u s =
                    notifyListeners fb n u (authListener fb u s).1).
    { cbn [notifyListeners]. unfold bind. now rewrite authListener_run. }
    rewrite Hstep, authListener_run. cbn [fst].
    match goal with
    | |- context [notifyListeners fb n u ?s1] =>
        specialize (IH s1); cbv zeta in IH;
        destruct (notifyListeners fb n u s1) as [s2 r]
    end.
    cbn [fst snd store error loading subscriptions writes authInitialized currentUser] in *.
    destruct IH as (H2 & He & Hl & Hs & Hw & Hi & Hc).
    rewrite length_app in Hw. cbn [length] in Hw.
    repeat split; try assumption; try lia; destruct n; assumption.
Qed.



(** X26.  Session restore end to end: on a store that is not initialised
    the first [fetchUser] registers a listener and has no value yet; after
    the first auth-state report the store holds the reported user, and every
    later [fetchUser] resolves at once with that user, changes nothing and
    registers no further listener. *)
Theorem session_restore_lifecycle
    (fb : Firebase) (firebaseUser : option FirebaseUser) (s : AuthState) :
  authInitialized (store s) = false ->
  let listening := (fetchUser s).1 in
  let resolved := (authStateChanged fb firebaseUser listening).1 in
  (fetchUser s).2 = Returned AwaitingListener
  /\ subscriptions resolved = S (subscriptions s)
  /\ currentUser (store resolved) = listenerUser fb firebaseUser
  /\ fetchUser resolved = (resolved, Returned (ResolvedWith (listenerUser fb firebaseUser))).
Proof.
  intros Hinit. cbv zeta. rewrite (fetchUser_uninitialized s Hinit). cbn [fst snd].
  match goal with
  | |- context [authStateChanged fb firebaseUser ?s1] =>
      destruct (notifyListeners_run fb firebaseUser (subscriptions s1) s1)
        as (_ & _ & _ & Hs & _ & Hi & Hc);
      unfold authStateChanged;
      cbn [subscriptions] in Hs, Hi, Hc |- *
  end.
  split; [reflexivity |]. split; [exact Hs |]. split; [exact Hc |].
  rewrite <- Hc. now apply fetchUser_initialized.
Qed.

Lemma session_restore_lifecycle_witness :
  let resolved := (authStateChanged aliceFirebase None (fetchUser freshAuthState).1).1 in
  fetchUser resolved = (resolved, Returned (ResolvedWith (listenerUser aliceFirebase None))).
Proof.
  intros resolved.
  apply (session_restore_lifecycle aliceFirebase None freshAuthState eq_refl).
Defined.

(** *** Sign-up *)


